(** * RHSM library of the el7toel8 upgrade repository: a shallow embedding

    Source: [repos/system_upgrade/el7toel8/libraries/rhsm.py].

    The development has four parts.
    - [Re]: the fragment of Python's [re] module that the seven patterns
      of the library use (backtracking matcher with greedy and lazy
      repetition, groups, [^] and [$] under [re.MULTILINE], [.] under
      [re.DOTALL]), together with [findall] and [search].
    - [Py]: the effects of the library.  Every function of the source is a
      state transformer over a [World]: the process environment, the state
      of the external system behind the [context] object, and the trace of
      the calls made to the collaborators (the context, the logger,
      [time.sleep], the reporting API).  Exceptions are the [Raise]
      outcome.
    - The library: the constants and functions of [rhsm.py], in source
      order and under their source names.
    - The properties, after the vocabulary their statements use.

    Strings are byte strings (the library runs under the Python 2
    interpreter of the source system), so [\s] is the ASCII class
    [ \t\n\r\f\v]. *)

From Equations Require Import Equations.
From stdpp Require Import base strings pretty gmap list.
From Stdlib Require Import Ascii ZArith Lia.

(** The newline character and the one-character string holding it. *)
Definition nl_char : ascii := "010"%char.
Definition nl : string := String nl_char "".

(* ================================================================== *)
(** ** The regular-expression fragment *)
(* ================================================================== *)

Module Re.

(** A character class is its membership test. *)
Definition charset := ascii → bool.

(** [\s] on byte strings: space, and the control characters 9 to 13
    (tab, newline, vertical tab, form feed, carriage return). *)
Definition is_space (c : ascii) : bool :=
  let n := nat_of_ascii c in
  Nat.eqb n 32 || (Nat.leb 9 n && Nat.leb n 13).

(** [\s] *)
Definition space : charset := is_space.
(** [[^\s]] *)
Definition not_space : charset := λ c, negb (is_space c).
(** [[^/]] *)
Definition not_slash : charset := λ c, negb (Ascii.eqb c "/").
(** [.] under [re.DOTALL] *)
Definition any : charset := λ _, true.

Inductive greed := Greedy | Lazy.

(** The patterns of the library only repeat single characters, so
    repetition is over a class.  [Bol] and [Eol] are [^] and [$] under
    [re.MULTILINE].  Groups carry their number (the rank of their opening
    parenthesis). *)
Inductive regex : Type :=
| Lit (s : string)                 (* literal text *)
| Star (cs : charset) (g : greed)  (* cs* and cs*? *)
| Plus (cs : charset) (g : greed)  (* cs+ and cs+? *)
| Bol                              (* ^ *)
| Eol                              (* $ *)
| Group (n : nat) (r : regex)      (* ( r ) *)
| Opt (r : regex)                  (* r? *)
| Seq (r1 r2 : regex).

Declare Scope re_scope.
Delimit Scope re_scope with re.
Bind Scope re_scope with regex.
Infix "⊙" := Seq (at level 60, right associativity) : re_scope.

(** The state of a match attempt: the character before the current
    position ([None] at the start of the text), the number of characters
    read since the attempt started, the text from the current position
    on, and the groups closed so far. *)
Record mstate := MState {
  m_prev : option ascii;
  m_pos : nat;
  m_rest : string;
  m_caps : gmap nat string
}.

Definition cont := mstate → option mstate.

(** The text read between two states of the same attempt. *)
Definition consumed (before after : mstate) : string :=
  String.substring 0 (m_pos after - m_pos before) (m_rest before).

Fixpoint lit (s : string) (prev : option ascii) (rest : string)
  : option (option ascii * string) :=
  match s with
  | EmptyString => Some (prev, rest)
  | String c s' =>
      match rest with
      | String d rest' => if Ascii.eqb c d then lit s' (Some d) rest' else None
      | EmptyString => None
      end
  end.

(** Repetition of a class, at least [min] times.  A greedy repetition
    first tries one more character and falls back to stopping here; a
    lazy one first tries to stop here. *)
Fixpoint rep (cs : charset) (g : greed) (min : nat)
    (prev : option ascii) (pos : nat) (rest : string) (caps : gmap nat string)
    (k : cont) : option mstate :=
  let stop (_ : unit) :=
    match min with
    | O => k (MState prev pos rest caps)
    | S _ => None
    end in
  let more (_ : unit) :=
    match rest with
    | String c rest' =>
        if cs c then rep cs g (Nat.pred min) (Some c) (S pos) rest' caps k
        else None
    | EmptyString => None
    end in
  match g with
  | Greedy => match more () with Some m => Some m | None => stop () end
  | Lazy => match stop () with Some m => Some m | None => more () end
  end.

(** [^] under MULTILINE: at the start of the text or just after a newline. *)
Definition at_bol (st : mstate) : bool :=
  match m_prev st with
  | None => true
  | Some c => Ascii.eqb c nl_char
  end.

(** [$] under MULTILINE: at the end of the text or just before a newline. *)
Definition at_eol (st : mstate) : bool :=
  match m_rest st with
  | EmptyString => true
  | String c _ => Ascii.eqb c nl_char
  end.

(** The backtracking matcher, in continuation-passing style: [k] is the
    rest of the pattern, and a [None] from it makes the current
    construct try its next alternative. *)
Fixpoint rmatch (r : regex) (st : mstate) (k : cont) : option mstate :=
  match r with
  | Lit s =>
      match lit s (m_prev st) (m_rest st) with
      | Some (prev, rest) =>
          k (MState prev (m_pos st + String.length s) rest (m_caps st))
      | None => None
      end
  | Star cs g => rep cs g 0 (m_prev st) (m_pos st) (m_rest st) (m_caps st) k
  | Plus cs g => rep cs g 1 (m_prev st) (m_pos st) (m_rest st) (m_caps st) k
  | Bol => if at_bol st then k st else None
  | Eol => if at_eol st then k st else None
  | Group n r =>
      rmatch r st (λ st',
        k (MState (m_prev st') (m_pos st') (m_rest st')
             (<[n := consumed st st']> (m_caps st'))))
  | Opt r =>
      match rmatch r st k with
      | Some m => Some m
      | None => k st
      end
  | Seq r1 r2 => rmatch r1 st (λ st', rmatch r2 st' k)
  end.

(** A match object: the matched text (group 0) and the numbered groups. *)
Record match_obj := Match {
  group0 : string;
  groups : gmap nat string
}.

(** [m.group(n)] for [n ≥ 1]; [None] when the group took no part. *)
Definition group (m : match_obj) (n : nat) : option string := groups m !! n.

(** One match attempt at a given position. *)
Definition match_at (r : regex) (prev : option ascii) (s : string)
  : option match_obj :=
  match rmatch r (MState prev 0 s ∅) Some with
  | Some st => Some (Match (String.substring 0 (m_pos st) s) (m_caps st))
  | None => None
  end.

(** The successive non-overlapping matches, left to right.  [skip] counts
    the positions still covered by the previous match.  After an empty
    match the scan moves on by one character. *)
Fixpoint finditer_from (r : regex) (skip : nat) (prev : option ascii)
    (s : string) : list match_obj :=
  let next (skip' : nat) :=
    match s with
    | String c s' => finditer_from r skip' (Some c) s'
    | EmptyString => []
    end in
  match skip with
  | S n => next n
  | O =>
      match match_at r prev s with
      | Some m => m :: next (Nat.pred (String.length (group0 m)))
      | None => next O
      end
  end.

Definition finditer (r : regex) (s : string) : list match_obj :=
  finditer_from r 0 None s.

(** [re.findall] for a pattern without group: the matched texts. *)
Definition findall0 (r : regex) (s : string) : list string :=
  group0 <$> finditer r s.

(** [re.findall] for a pattern with exactly one group: the texts of the
    group (the empty string when it took no part). *)
Definition findall1 (r : regex) (s : string) : list string :=
  (λ m, default "" (group m 1)) <$> finditer r s.

(** [re.search]: the first position, left to right, at which the pattern
    matches. *)
Fixpoint search_from (r : regex) (prev : option ascii) (s : string)
  : option match_obj :=
  match match_at r prev s with
  | Some m => Some m
  | None =>
      match s with
      | String c s' => search_from r (Some c) s'
      | EmptyString => None
      end
  end.

Definition search (r : regex) (s : string) : option match_obj :=
  search_from r None s.

End Re.

Import Re.


(* ================================================================== *)
(** ** Effects: worlds, outcomes, exceptions *)
(* ================================================================== *)

Module Py.

(** The exceptions the library raises or handles.  Each carries what the
    source reads from it: [str(e)], and [e.stderr] for a failed command.
    [StopActorExecutionError] is the terminal error of the framework; its
    [details] argument is optional. *)
Inductive exn :=
| StopActorExecutionError (message : string) (details : option (gmap string string))
| CalledProcessError (str : string) (stderr : string)
| OSError (str : string)
| ValueError (args : list string).

(** What a function hands back to its caller. *)
Inductive result (A : Type) :=
| Return (a : A)
| Raise (e : exn).
Arguments Return {A} a.
Arguments Raise {A} e.

(** The values the public functions return. *)
Inductive value :=
| VNone
| VStr (s : string)
| VList (l : list string).

(** Calls to the logger keep their format string and arguments apart, as
    the logging API receives them. *)
Inductive level := ERROR | WARNING | INFO.
Inductive logarg := AInt (n : Z) | AStr (s : string).

(** The entries of a report, as passed to [reporting.create_report]. *)
Inductive severity := LOW | MEDIUM | HIGH.
Inductive tag := REPOSITORY.
Inductive flag := INHIBITOR.
Inductive report_entry :=
| Title (s : string)
| Summary (s : string)
| Severity (v : severity)
| Tags (l : list tag)
| Flags (l : list flag)
| Remediation (hint : string).

(** One entry of the trace per call to a collaborator. *)
Inductive event :=
| Call (cmd : list string)              (* context.call(cmd) *)
| Remove (path : string)                (* context.remove(path) *)
| CopyTo (src dst : string)             (* context.copy_to(src, dst) *)
| Log (lvl : level) (fmt : string) (args : list logarg)
| Sleep (seconds : nat)                 (* time.sleep(seconds) *)
| CreateReport (entries : list report_entry).

(** The process environment, the state of the system the commands act
    on, and the calls made so far, oldest first. *)
Record World (X : Type) := MkWorld {
  environ : gmap string string;
  system : X;
  trace : list event
}.
Arguments MkWorld {X}.
Arguments environ {X}.
Arguments system {X}.
Arguments trace {X}.

Definition M (X A : Type) : Type := World X → result A * World X.

Section Monad.
Context {X : Type}.

Definition ret {A} (a : A) : M X A := λ w, (Return a, w).
Definition raise {A} (e : exn) : M X A := λ w, (Raise e, w).
Definition bind {A B} (m : M X A) (k : A → M X B) : M X B :=
  λ w, match m w with
       | (Return a, w') => k a w'
       | (Raise e, w') => (Raise e, w')
       end.

(** [try: body except ...: handler]: the handler says which exceptions
    it takes ([None] lets the exception through). *)
Definition try_except {A} (body : M X A) (handler : exn → option (M X A))
  : M X A :=
  λ w, match body w with
       | (Return a, w') => (Return a, w')
       | (Raise e, w') =>
           match handler e with
           | Some h => h w'
           | None => (Raise e, w')
           end
       end.

Definition emit (ev : event) : M X unit :=
  λ w, (Return (), MkWorld (environ w) (system w) (trace w ++ [ev])).

(** An iterator is the list of the computations of its items;
    [list(it)] runs them in order up to the first that raises. *)
Fixpoint list_of {A} (it : list (M X A)) : M X (list A) :=
  match it with
  | [] => ret []
  | m :: it' => bind m (λ a, bind (list_of it') (λ l, ret (a :: l)))
  end.

(** [for x in l: body] *)
Fixpoint for_each {A} (l : list A) (body : A → M X unit) : M X unit :=
  match l with
  | [] => ret ()
  | x :: l' => bind (body x) (λ _, for_each l' body)
  end.
End Monad.

Declare Scope py_scope.
Delimit Scope py_scope with py.
Notation "x <- m ;; k" := (bind m (λ x, k))
  (at level 100, m at next level, k at level 200, right associativity)
  : py_scope.
Notation "m ;; k" := (bind m (λ _, k))
  (at level 100, k at level 200, right associativity) : py_scope.

(** *** Collaborators *)

(** [api.current_logger()] *)
Definition logger {X} (lvl : level) (fmt : string) (args : list logarg)
  : M X unit := emit (Log lvl fmt args).

(** [time.sleep] *)
Definition time_sleep {X} (seconds : nat) : M X unit := emit (Sleep seconds).

(** [reporting.create_report] *)
Definition create_report {X} (entries : list report_entry) : M X unit :=
  emit (CreateReport entries).

(** The dictionary [context.call] returns. *)
Record CallResult := MkCallResult {
  stdout : string;
  stderr : string
}.

(** How running a command ends: the command runner returns the result
    of a command that exits with status 0, raises [CalledProcessError]
    for any other exit status, and [OSError] when the process cannot be
    started. *)
Inductive run_outcome :=
| Exit0 (r : CallResult)
| NonZeroExit (str : string) (err : string)
| LaunchFailure (str : string).

(** The [mounting.IsolatedActions] object the functions receive, by what
    its methods do to the system.  [remove] fails with [OSError]; what
    [copy_to] may raise is left open. *)
Record IsolatedActions (X : Type) := MkContext {
  ctx_call : list string → X → run_outcome * X;
  ctx_remove : string → X → option string * X;
  ctx_copy_to : string → string → X → option exn * X;
  ctx_full_path : string → string;
  ctx_is_isolated : bool
}.
Arguments MkContext {X}.
Arguments ctx_call {X}.
Arguments ctx_remove {X}.
Arguments ctx_copy_to {X}.
Arguments ctx_full_path {X}.
Arguments ctx_is_isolated {X}.

Section Context.
Context {X : Type}.

Definition on_system {A} (f : X → A * X) (w : World X) : A * World X :=
  let '(a, x) := f (system w) in (a, MkWorld (environ w) x (trace w)).

(** [context.call(cmd)] *)
Definition call (context : IsolatedActions X) (cmd : list string)
  : M X CallResult :=
  (emit (Call cmd) ;;
   λ w, match on_system (ctx_call context cmd) w with
        | (Exit0 r, w') => (Return r, w')
        | (NonZeroExit s err, w') => (Raise (CalledProcessError s err), w')
        | (LaunchFailure s, w') => (Raise (OSError s), w')
        end)%py.

(** [context.remove(path)] *)
Definition remove (context : IsolatedActions X) (path : string) : M X unit :=
  (emit (Remove path) ;;
   λ w, match on_system (ctx_remove context path) w with
        | (None, w') => (Return (), w')
        | (Some s, w') => (Raise (OSError s), w')
        end)%py.

(** [context.copy_to(src, dst)] *)
Definition copy_to (context : IsolatedActions X) (src dst : string)
  : M X unit :=
  (emit (CopyTo src dst) ;;
   λ w, match on_system (ctx_copy_to context src dst) w with
        | (None, w') => (Return (), w')
        | (Some e, w') => (Raise e, w')
        end)%py.

(** [context.is_isolated()] and [context.full_path(path)] *)
Definition is_isolated (context : IsolatedActions X) : bool :=
  ctx_is_isolated context.
Definition full_path (context : IsolatedActions X) (path : string) : string :=
  ctx_full_path context path.
End Context.

(** *** Built-ins *)

(** [os.getenv(key, default)] *)
Definition getenv (env : gmap string string) (key dflt : string) : string :=
  default dflt (env !! key).

(** Truth value of a string or [None], and [a or b]. *)
Definition truthy (o : option string) : bool :=
  match o with
  | Some (String _ _) => true
  | _ => false
  end.
Definition or_else (o : option string) (dflt : string) : string :=
  match o with
  | Some (String c s) => String c s
  | _ => dflt
  end.

(** [sep.join(l)] *)
Fixpoint join (sep : string) (l : list string) : string :=
  match l with
  | [] => ""
  | [x] => x
  | x :: l' => x +:+ sep +:+ join sep l'
  end.

(** [os.path.basename] and [os.path.join] of [posixpath]. *)
Fixpoint has_slash (p : string) : bool :=
  match p with
  | EmptyString => false
  | String c p' => Ascii.eqb c "/" || has_slash p'
  end.

Fixpoint basename (p : string) : string :=
  match p with
  | EmptyString => ""
  | String c p' =>
      if has_slash p' then basename p'
      else if Ascii.eqb c "/" then p' else String c p'
  end.

Fixpoint ends_with_slash (p : string) : bool :=
  match p with
  | EmptyString => false
  | String c EmptyString => Ascii.eqb c "/"
  | String _ p' => ends_with_slash p'
  end.

Definition path_join (a b : string) : string :=
  match b with
  | String "/" _ => b
  | _ =>
      match a with
      | EmptyString => b
      | _ => if ends_with_slash a then a +:+ b else a +:+ "/" +:+ b
      end
  end.

(** A function object: its name and what calling it does. *)
Record function (X A : Type) := Def {
  __name__ : string;
  __call__ : A → M X value
}.
Arguments Def {X A}.
Arguments __name__ {X A}.
Arguments __call__ {X A}.

End Py.

Import Py.
Local Open Scope py_scope.

(* ================================================================== *)
(** ** The library *)
(* ================================================================== *)

(** [r'Repo ID:\s*([^\s]+)'] *)
Definition _RE_REPO_UID : regex :=
  (Lit "Repo ID:" ⊙ Star space Greedy ⊙ Group 1 (Plus not_space Greedy))%re.
(** [r'Release:\s*([^\s]+)'] *)
Definition _RE_RELEASE : regex :=
  (Lit "Release:" ⊙ Star space Greedy ⊙ Group 1 (Plus not_space Greedy))%re.
(** [r'SKU:\s*([^\s]+)'] *)
Definition _RE_SKU_CONSUMED : regex :=
  (Lit "SKU:" ⊙ Star space Greedy ⊙ Group 1 (Plus not_space Greedy))%re.
Definition _ATTEMPTS : Z := 5.
Definition _RETRY_SLEEP : nat := 5.
Definition _DEFAULT_RHSM_REPOFILE : string := "/etc/yum.repos.d/redhat.repo".

(** The patterns written in place in the source, all compiled with
    [re.DOTALL | re.MULTILINE]. *)
(** [r'Repository ([^\s]+) is listed more than once'] *)
Definition _RE_DUPLICATE : regex :=
  (Lit "Repository " ⊙ Group 1 (Plus not_space Greedy)
   ⊙ Lit " is listed more than once")%re.
(** [r"Repo-id.*?Repo-filename.*?\n"] *)
Definition _RE_REPO_BLOCK : regex :=
  (Lit "Repo-id" ⊙ Star any Lazy ⊙ Lit "Repo-filename" ⊙ Star any Lazy
   ⊙ Lit nl)%re.
(** [r'^Repo-id\s+:\s+([^/]+?)(/.*?)?$'] *)
Definition _RE_PARAM_REPO_ID : regex :=
  (Bol ⊙ Lit "Repo-id" ⊙ Plus space Greedy ⊙ Lit ":" ⊙ Plus space Greedy
   ⊙ Group 1 (Plus not_slash Lazy) ⊙ Opt (Group 2 (Lit "/" ⊙ Star any Lazy))
   ⊙ Eol)%re.
(** [r'^Repo-filename:\s+(.*?)$'] *)
Definition _RE_PARAM_REPO_FILENAME : regex :=
  (Bol ⊙ Lit "Repo-filename:" ⊙ Plus space Greedy ⊙ Group 1 (Star any Lazy)
   ⊙ Eol)%re.

(** The [namedtuple('Repository', ['repoid', 'file'])]. *)
Record Repository := MkRepository {
  repoid : string;
  file : string
}.

(** The fields of the [RHSMInfo] model. *)
Record RHSMInfo := MkRHSMInfo {
  attached_skus : list string;
  available_repos : list string;
  enabled_repos : list string;
  release : string;
  existing_product_certificates : list string
}.

(** [os.getenv('LEAPP_DEVEL_SKIP_RHSM', '0') == '1'], on the environment
    of the moment of the call. *)
Definition skip_rhsm (env : gmap string string) : bool :=
  bool_decide (getenv env "LEAPP_DEVEL_SKIP_RHSM" "0" = "1").

Section Library.
Context {X : Type}.

(** [os.path.isdir], a question to the system. *)
Variable os_path_isdir : string → X → bool.

Definition isdir (p : string) : M X bool :=
  λ w, (Return (os_path_isdir p (system w)), w).

(** *** [_rhsm_retry] *)
Section Retry.
Context {A : Type}.
Variables (max_attempts : Z) (sleep : option nat).
Variables (f : function X A) (args : A).

(** The two branches of the handler: the last warning, and the
    notice of a retry followed by the pause. *)
Definition give_up_warning (attempts : Z) : M X unit :=
  logger WARNING
    "Attempt %d of %d to perform %s failed. Maximum number of retries has been reached."
    [AInt attempts; AInt max_attempts; AStr (__name__ f)].

Definition retry_notice (attempts : Z) : M X unit :=
  match sleep with
  | Some (S n) =>
      logger INFO
        "Attempt %d of %d to perform %s failed - Retrying after %s seconds"
        [AInt attempts; AInt max_attempts; AStr (__name__ f);
         AStr (pretty (S n))] ;;
      time_sleep (S n)
  | _ =>
      logger INFO
        "Attempt %d of %d to perform %s failed - Retrying..."
        [AInt attempts; AInt max_attempts; AStr (__name__ f)]
  end.

(** The [while True] loop of [wrapper]; the argument is the value
    of [attempts] when the iteration starts.  An iteration goes round
    again only while [attempts < max_attempts], which bounds the
    loop. *)
Equations? wrapper_loop (attempts0 : Z) : M X value
  by wf (Z.to_nat (max_attempts - attempts0)) lt :=
wrapper_loop attempts0 :=
  let attempts := (attempts0 + 1)%Z in
  try_except (__call__ f args) (λ e,
    match e with
    | StopActorExecutionError _ _ =>
        Some
          match decide (max_attempts ≤ attempts)%Z with
          | left _ => give_up_warning attempts ;; raise e
          | right _ => retry_notice attempts ;; wrapper_loop attempts
          end
    | _ => None
    end).
Proof. lia. Qed.

Definition wrapper : M X value := wrapper_loop 0.
End Retry.

Definition _rhsm_retry {A} (max_attempts : Z) (sleep : option nat)
    (f : function X A) : function X A :=
  Def (__name__ f) (wrapper max_attempts sleep f).

(** *** [_handle_rhsm_exceptions]

    The context manager, applied to the body of its [with] block. *)
Definition _handle_rhsm_exceptions {A} (hint : option string)
    (body : M X A) : M X A :=
  try_except body (λ e,
    match e with
    | OSError str =>
        Some (logger ERROR "Failed to execute subscription-manager executable" [] ;;
              raise (StopActorExecutionError
                ("Unable to execute subscription-manager executable: " +:+ str)
                (Some {[ "hint" :=
                  "Please ensure subscription-manager is installed and executable." ]})))
    | CalledProcessError str err =>
        Some (raise (StopActorExecutionError
                "A subscription-manager command failed to execute"
                (Some (<[ "details" := str ]>
                      (<[ "stderr" := err ]>
                      {[ "hint" := or_else hint
                           "Please ensure you have a valid RHEL subscription and your network is up." ]})))))
    | _ => None
    end).

(** *** [with_rhsm]

    The decorator reads the switch when it is applied to [f]; [env] is
    the environment of that moment.  What it returns is either [f]
    itself or a function that ignores its arguments. *)
Definition _no_op {A} (f : function X A) : function X A :=
  Def (__name__ f) (λ _, ret VNone).

Definition with_rhsm {A} (env : gmap string string) (f : function X A)
  : function X A :=
  if skip_rhsm env then _no_op f else f.

(** The environment of the process when the module is imported, which
    is when the decorators of the module run. *)
Variable import_environ : gmap string string.

(** *** The functions of the module, in source order.

    For a decorated [def name], [name_def] is the function as written
    and [name] is what the module binds the name to. *)

Definition get_attached_skus_def : function X (IsolatedActions X) :=
  Def "get_attached_skus" (λ context,
    _handle_rhsm_exceptions None
      (result <- call context ["subscription-manager"; "list"; "--consumed"] ;;
       ret (VList (findall1 _RE_SKU_CONSUMED (stdout result))))).
Definition get_attached_skus := with_rhsm import_environ get_attached_skus_def.

Definition _inhibit_on_duplicate_repos (repos_raw_stderr : string)
  : M X value :=
  let duplicates := findall1 _RE_DUPLICATE repos_raw_stderr in
  match duplicates with
  | [] => ret VNone
  | _ =>
      let list_separator_fmt := nl +:+ "    - " in
      logger WARNING
        ("The following repoids are defined multiple times:"
           +:+ list_separator_fmt +:+ join list_separator_fmt duplicates) [] ;;
      create_report [
        Title "A YUM/DNF repository defined multiple times";
        Summary
          ("The `yum repoinfo` command reports that the following repositories are defined multiple times:"
             +:+ list_separator_fmt +:+ join list_separator_fmt duplicates);
        Severity MEDIUM;
        Tags [REPOSITORY];
        Flags [INHIBITOR];
        Remediation "Remove the duplicit repository definitions."
      ] ;;
      ret VNone
  end.

(** [group(1)] of a match; both patterns it is used with put group 1
    on every path to a match. *)
Definition _get_repo_param (pattern : regex) (repo_params_raw param : string)
  : M X string :=
  match search pattern repo_params_raw with
  | Some repo_param => ret (default "" (group repo_param 1))
  | None => raise (ValueError [param; repo_params_raw])
  end.

Definition _parse_repo_params (repo_params_raw : string) : M X Repository :=
  try_except
    (repoid <- _get_repo_param _RE_PARAM_REPO_ID repo_params_raw "Repo-id" ;;
     repofile <- _get_repo_param _RE_PARAM_REPO_FILENAME repo_params_raw
                   "Repo-filename" ;;
     ret (MkRepository repoid repofile))
    (λ err,
      match err with
      | ValueError err_args =>
          let err_detail :=
            "Failed to parse the '" +:+ default "" (head err_args)
              +:+ "' repo parameter within the following part of the"
              +:+ " `yum repoinfo` output:" +:+ nl +:+ repo_params_raw in
          Some (raise (StopActorExecutionError
                  "Failed to parse the `yum repoinfo` output"
                  (Some {[ "details" := err_detail ]})))
      | _ => None
      end).

(** The generator: one computation per block that [re.findall]
    returns, in document order. *)
Definition _get_repos (repos_stdout_raw : string) : list (M X Repository) :=
  _parse_repo_params <$> findall0 _RE_REPO_BLOCK repos_stdout_raw.

(** The value of [cmd] in [get_available_repo_ids]. *)
Definition repoinfo_cmd (releasever : option string) : list string :=
  ["yum"; "repoinfo"] ++
  (if truthy releasever then ["--releasever"; default "" releasever] else []).

Definition get_available_repo_ids
  : function X (IsolatedActions X * option string) :=
  Def "get_available_repo_ids" (λ '(context, releasever),
    let cmd := repoinfo_cmd releasever in
    result <- try_except (call context cmd) (λ exc,
                match exc with
                | CalledProcessError str err =>
                    Some (raise (StopActorExecutionError
                            "Unable to get list of available yum repositories."
                            (Some (<[ "details" := str ]>
                                  {[ "stderr" := err ]}))))
                | _ => None
                end) ;;
    _inhibit_on_duplicate_repos (stderr result) ;;
    available_repos <- list_of (_get_repos (stdout result)) ;;
    let available_rhsm_repos :=
      repoid <$> filter (λ repo, file repo = _DEFAULT_RHSM_REPOFILE)
                   available_repos in
    let list_separator_fmt := nl +:+ "    - " in
    match available_rhsm_repos with
    | _ :: _ =>
        logger INFO
          ("The following repoids are available through RHSM:"
             +:+ list_separator_fmt
             +:+ join list_separator_fmt available_rhsm_repos) []
    | [] => logger INFO "There are no repos available through RHSM." []
    end ;;
    ret (VList available_rhsm_repos)).

Definition get_enabled_repo_ids_def : function X (IsolatedActions X) :=
  Def "get_enabled_repo_ids" (λ context,
    _handle_rhsm_exceptions None
      (result <- call context ["subscription-manager"; "repos"; "--list-enabled"] ;;
       ret (VList (findall1 _RE_REPO_UID (stdout result))))).
Definition get_enabled_repo_ids :=
  with_rhsm import_environ get_enabled_repo_ids_def.

Definition unset_release_def : function X (IsolatedActions X) :=
  Def "unset_release" (λ context,
    _handle_rhsm_exceptions None
      (call context ["subscription-manager"; "release"; "--unset"] ;;
       ret VNone)).
Definition unset_release :=
  with_rhsm import_environ
    (_rhsm_retry _ATTEMPTS (Some _RETRY_SLEEP) unset_release_def).

Definition set_release_def : function X (IsolatedActions X * string) :=
  Def "set_release" (λ '(context, release),
    _handle_rhsm_exceptions None
      (call context ["subscription-manager"; "release"; "--set"; release] ;;
       ret VNone)).
Definition set_release :=
  with_rhsm import_environ
    (_rhsm_retry _ATTEMPTS (Some _RETRY_SLEEP) set_release_def).

Definition get_release_def : function X (IsolatedActions X) :=
  Def "get_release" (λ context,
    _handle_rhsm_exceptions None
      (result <- call context ["subscription-manager"; "release"] ;;
       let result := findall1 _RE_RELEASE (stdout result) in
       ret (VStr (match result with r0 :: _ => r0 | [] => "" end)))).
Definition get_release := with_rhsm import_environ get_release_def.

Definition refresh_def : function X (IsolatedActions X) :=
  Def "refresh" (λ context,
    _handle_rhsm_exceptions None
      (call context ["subscription-manager"; "refresh"] ;;
       ret VNone)).
Definition refresh :=
  with_rhsm import_environ
    (_rhsm_retry _ATTEMPTS (Some _RETRY_SLEEP) refresh_def).

Definition set_container_mode_def : function X (IsolatedActions X) :=
  Def "set_container_mode" (λ context,
    if negb (is_isolated context) then
      logger ERROR
        ("Trying to set RHSM into the container mode"
           +:+ "on host. Skipping the action.") [] ;;
      ret VNone
    else
      try_except
        (call context ["ln"; "-s"; "/etc/rhsm"; "/etc/rhsm-host"] ;;
         ret VNone)
        (λ e,
          match e with
          | CalledProcessError _ _ =>
              Some (raise (StopActorExecutionError
                "Cannot set the container mode for the subscription-manager."
                None))
          | _ => None
          end)).
Definition set_container_mode :=
  with_rhsm import_environ set_container_mode_def.

Definition switch_certificate_def
  : function X (IsolatedActions X * RHSMInfo * string) :=
  Def "switch_certificate" (λ '(context, rhsm_info, cert_path),
    for_each (existing_product_certificates rhsm_info) (λ existing,
      try_except (remove context existing) (λ e,
        match e with
        | OSError _ =>
            Some (logger WARNING "Failed to remove existing certificate: %s"
                    [AStr existing])
        | _ => None
        end)) ;;
    for_each ["/etc/pki/product"; "/etc/pki/product-default"] (λ path,
      is_dir <- isdir (full_path context path) ;;
      if is_dir
      then copy_to context cert_path (path_join path (basename cert_path))
      else ret ()) ;;
    ret VNone).
Definition switch_certificate :=
  with_rhsm import_environ switch_certificate_def.

End Library.

(* ================================================================== *)
(** ** Vocabulary of the statements *)
(* ================================================================== *)

(** *** Retries

    [after_failures k w] is the world in which the wrapper starts its
    attempt number [k + 1], after [k] attempts that each ended in the
    retry notice; [attempt j w] is what the [j]-th invocation of the
    operation does, numbered from 1. *)
Section RetrySpec.
Context {X A : Type}.
Variables (max_attempts : Z) (sleep : option nat).
Variables (f : function X A) (args : A).

Fixpoint after_failures (k : nat) (w : World X) : World X :=
  match k with
  | O => w
  | S k' =>
      snd (retry_notice max_attempts sleep f (Z.of_nat (S k'))
             (snd (__call__ f args (after_failures k' w))))
  end.

Definition attempt (j : nat) (w : World X) : result value * World X :=
  __call__ f args (after_failures (j - 1) w).
End RetrySpec.

(** Counting invocations: [counted f] behaves as [f] on the system
    state of [f] and keeps, out of reach of [f] and of the wrapper, the
    number of times it has been called. *)
Definition forget {X} (w : World (X * nat)) : World X :=
  MkWorld (environ w) (fst (system w)) (trace w).
Definition counted {X A} (f : function X A) : function (X * nat) A :=
  Def (__name__ f) (λ args w,
    let '(r, w') := __call__ f args (forget w) in
    (r, MkWorld (environ w') (system w', S (snd (system w))) (trace w'))).
Definition invocations {X} (w : World (X * nat)) : nat := snd (system w).

(** Ending with the terminal error. *)
Definition fails {A X} (r : result A * World X) : Prop :=
  ∃ m d, fst r = Raise (StopActorExecutionError m d).

(** An operation that fails as many times as the system state says, then
    succeeds. *)
Definition flaky : function nat unit :=
  Def "flaky" (λ _ w,
    match system w with
    | O => (Return (VStr "done"), w)
    | S n => (Raise (StopActorExecutionError "busy" None),
              MkWorld (environ w) n (trace w))
    end).

(** *** Worlds and events *)

Definition set_environ {X} (env : gmap string string) (w : World X) : World X :=
  MkWorld env (system w) (trace w).

(** The world [w] after the calls [evs], the system left as it is. *)
Definition record {X} (evs : list event) (w : World X) : World X :=
  MkWorld (environ w) (system w) (trace w ++ evs).

(** Environments with the switch on, and off. *)
Definition switch_on : gmap string string := {[ "LEAPP_DEVEL_SKIP_RHSM" := "1" ]}.
Definition switch_off : gmap string string := {[ "LEAPP_DEVEL_SKIP_RHSM" := "0" ]}.

(** A context over a system without state: every command exits with
    status 0 and prints [out] and [err], removals and copies succeed. *)
Definition quiet_context (isolated : bool) (out err : string)
  : IsolatedActions unit :=
  MkContext (λ _ x, (Exit0 (MkCallResult out err), x))
            (λ _ x, (None, x)) (λ _ _ x, (None, x)) (λ p, p) isolated.

(** A context whose commands all exit with a non-zero status and whose
    removals all fail. *)
Definition failing_context (isolated : bool) : IsolatedActions unit :=
  MkContext (λ _ x, (NonZeroExit "Command failed with exit code 1." "error", x))
            (λ _ x, (Some "No such file or directory", x))
            (λ _ _ x, (None, x)) (λ p, p) isolated.

(** A context on which no command can be started. *)
Definition broken_context (isolated : bool) : IsolatedActions unit :=
  MkContext (λ _ x, (LaunchFailure "No such file or directory", x))
            (λ _ x, (None, x)) (λ _ _ x, (None, x)) (λ p, p) isolated.

Definition empty_world : World unit := MkWorld ∅ () [].

(** *** Terminal errors *)

(** A terminal error with a message and a [hint] among its details. *)
Definition carries_hint (e : exn) : Prop :=
  ∃ m d, e = StopActorExecutionError m (Some d) ∧ m ≠ "" ∧ is_Some (d !! "hint").

(** Every exception [m] can raise satisfies [P]. *)
Definition raises_only {X A} (P : exn → Prop) (m : M X A) : Prop :=
  ∀ w e, fst (m w) = Raise e → P e.

(** What the command runner raises. *)
Definition runner_error (e : exn) : Prop :=
  match e with
  | CalledProcessError _ _ | OSError _ => True
  | _ => False
  end.

(** *** Duplicate repositories *)

(** The values of a list without their repetitions, each at the place
    of its first occurrence. *)
Fixpoint distinct_from (seen l : list string) : list string :=
  match l with
  | [] => []
  | x :: l' =>
      if bool_decide (x ∈ seen) then distinct_from seen l'
      else x :: distinct_from (x :: seen) l'
  end.
Definition distinct (l : list string) : list string := distinct_from [] l.

(** The listing of repository ids in a message. *)
Definition listing (ids : list string) : string :=
  (nl +:+ "    - ") +:+ join (nl +:+ "    - ") ids.

(** One line of the warning of yum about a repeated repository. *)
Definition duplicate_line (id : string) : string :=
  "Repository " +:+ id +:+ " is listed more than once in the configuration" +:+ nl.

(** *** Texts *)

(** All the characters of a string are in a class. *)
Fixpoint all_chars (cs : charset) (s : string) : bool :=
  match s with
  | EmptyString => true
  | String c s' => cs c && all_chars cs s'
  end.

(** A token: at least one character, none of them white space. *)
Definition is_token (s : string) : bool :=
  match s with
  | EmptyString => false
  | _ => all_chars not_space s
  end.

(** The character before the position reached after reading [s]. *)
Fixpoint last_char (prev : option ascii) (s : string) : option ascii :=
  match s with
  | EmptyString => prev
  | String c s' => last_char (Some c) s'
  end.

(** [lit] occurs in [s] at some position. *)
Fixpoint occurs (lit : string) (s : string) : bool :=
  String.prefix lit s ||
  match s with
  | EmptyString => false
  | String _ s' => occurs lit s'
  end.

(** The lines of a text, one after the other. *)
Fixpoint concat_lines (l : list string) : string :=
  match l with
  | [] => ""
  | x :: l' => x +:+ concat_lines l'
  end.

(** The calls a list of repeated repository ids gives rise to: none
    for the empty list, else one warning and one report. *)
Definition duplicate_events (ids : list string) : list event :=
  match ids with
  | [] => []
  | _ =>
      [Log WARNING
         ("The following repoids are defined multiple times:" +:+ listing ids) [];
       CreateReport [
         Title "A YUM/DNF repository defined multiple times";
         Summary
           ("The `yum repoinfo` command reports that the following repositories are defined multiple times:"
              +:+ listing ids);
         Severity MEDIUM;
         Tags [REPOSITORY];
         Flags [INHIBITOR];
         Remediation "Remove the duplicit repository definitions."
       ]]
  end.


(** *** Repository blocks *)

(** The field that cannot be extracted from a block, if any: the
    pattern of [Repo-id] is tried first. *)
Definition missing_field (block : string) : option string :=
  match search _RE_PARAM_REPO_ID block with
  | None => Some "Repo-id"
  | Some _ =>
      match search _RE_PARAM_REPO_FILENAME block with
      | None => Some "Repo-filename"
      | Some _ => None
      end
  end.

(** The terminal error for a block in which [field] is missing. *)
Definition parse_failure (field block : string) : exn :=
  StopActorExecutionError "Failed to parse the `yum repoinfo` output"
    (Some {[ "details" :=
       "Failed to parse the '" +:+ field
         +:+ "' repo parameter within the following part of the `yum repoinfo` output:"
         +:+ nl +:+ block ]}).

(** The last steps of [get_available_repo_ids]: filtering on the
    repository file, and the message. *)
Definition rhsm_repoids (repos : list Repository) : list string :=
  repoid <$> filter (λ repo, file repo = _DEFAULT_RHSM_REPOFILE) repos.

Definition available_message (ids : list string) : event :=
  match ids with
  | _ :: _ =>
      Log INFO ("The following repoids are available through RHSM:"
                  +:+ listing ids) []
  | [] => Log INFO "There are no repos available through RHSM." []
  end.


(** *** Certificates *)

Definition is_removal (ev : event) : bool :=
  match ev with Remove _ => true | _ => false end.
Definition is_copy (ev : event) : bool :=
  match ev with CopyTo _ _ => true | _ => false end.

(** The calls of one removal attempt: the removal, and the warning when
    it failed. *)
Definition removal_events (path : string) (failure : option string)
  : list event :=
  Remove path ::
  match failure with
  | Some _ => [Log WARNING "Failed to remove existing certificate: %s" [AStr path]]
  | None => []
  end.

(** The copies of a certificate into the two directories. *)
Definition certificate_copies (cert_path : string) : list event :=
  [CopyTo cert_path (path_join "/etc/pki/product" (basename cert_path));
   CopyTo cert_path (path_join "/etc/pki/product-default" (basename cert_path))].

(** The copies made from the system state [x]: one per directory that
    exists when its turn comes, the second only if the first did not
    fail. *)
Definition copies_made {X} (os_path_isdir : string → X → bool)
    (context : IsolatedActions X) (cert_path : string) (x : X) : list event :=
  let target d := path_join d (basename cert_path) in
  if os_path_isdir (full_path context "/etc/pki/product") x then
    CopyTo cert_path (target "/etc/pki/product") ::
    match ctx_copy_to context cert_path (target "/etc/pki/product") x with
    | (Some _, _) => []
    | (None, x') =>
        if os_path_isdir (full_path context "/etc/pki/product-default") x'
        then [CopyTo cert_path (target "/etc/pki/product-default")]
        else []
    end
  else if os_path_isdir (full_path context "/etc/pki/product-default") x
  then [CopyTo cert_path (target "/etc/pki/product-default")]
  else [].

(** A snapshot with the given certificates. *)
Definition snapshot (certs : list string) : RHSMInfo :=
  MkRHSMInfo [] [] [] "" certs.


(** *** Scenarios *)

(** The output of [yum repoinfo] for one repository of the RHSM
    repository file: the [Repo-id] line, the lines [mid] of the other
    fields, and the [Repo-filename] line. *)
Definition first_line : string :=
  "Repo-id   : rhel-7-server-rpms/x86_64" +:+ nl.
Definition last_line : string :=
  "Repo-filename: /etc/yum.repos.d/redhat.repo" +:+ nl.
Definition scenario_stdout (mid : string) : string :=
  first_line +:+ mid +:+ last_line.

(** No occurrence of [lit] in [s +:+ tail] starts inside [s]. *)
Fixpoint free_of (lit s tail : string) : bool :=
  match s with
  | EmptyString => true
  | String c s' => negb (String.prefix lit (s +:+ tail)) && free_of lit s' tail
  end.

(** [mid] is made of whole lines, none of which holds the name of the
    last field: it is empty or ends with a newline, and [Repo-filename]
    first occurs in the last line. *)
Definition other_fields (mid : string) : Prop :=
  last_char (Some nl_char) mid = Some nl_char
  ∧ free_of "Repo-filename" mid last_line = true.

(** The other fields that yum prints for the repository. *)
Definition usual_fields : string :=
  "Repo-name  : Red Hat Enterprise Linux 7 Server (RPMs)" +:+ nl
  +:+ "Repo-status  : enabled" +:+ nl
  +:+ "Repo-baseurl : https://cdn.redhat.com/content/dist/rhel/server/7/7Server/x86_64/os" +:+ nl
  +:+ "Repo-expire  : 86,400 second(s) (last: Mon Nov  4 07:24:00 2019)" +:+ nl.


(** *** Counting calls *)

Definition is_call (ev : event) : bool :=
  match ev with Call _ => true | _ => false end.
Definition is_sleep (ev : event) : bool :=
  match ev with Sleep _ => true | _ => false end.

(** The commands run and the pauses made, among some calls. *)
Definition commands (evs : list event) : list event :=
  filter (λ ev, is_call ev = true) evs.
Definition pauses (evs : list event) : list event :=
  filter (λ ev, is_sleep ev = true) evs.

(** The commands run and the pauses made among some calls, in the
    order in which they were made. *)
Definition is_step (ev : event) : bool := is_call ev || is_sleep ev.
Definition steps (evs : list event) : list event :=
  filter (λ ev, is_step ev = true) evs.

(** [k] further runs of the command [cmd], each after a pause of
    [pause] seconds. *)
Fixpoint reruns (k pause : nat) (cmd : list string) : list event :=
  match k with
  | O => []
  | S k' => Sleep pause :: Call cmd :: reruns k' pause cmd
  end.

(** A run that started in [w] ran the command [cmd] some [k] times,
    with [1 ≤ k ≤ n]: its commands and pauses are, in this order, a
    first run of [cmd] and then [k - 1] times a pause of [pause]
    seconds followed by a run of [cmd], so that there is one pause
    between two consecutive runs and none before the first run or after
    the last.  It either returned [None] or, after the [n]-th run,
    raised a terminal error with a hint. *)
Definition retried_at_most {X} (n pause : nat) (cmd : list string)
    (w : World X) (run : result value * World X) : Prop :=
  ∃ k evs,
    1 ≤ k ≤ n
    ∧ trace (snd run) = trace w ++ evs
    ∧ steps evs = Call cmd :: reruns (k - 1) pause cmd
    ∧ (fst run = Return VNone
       ∨ (k = n ∧ ∃ e, fst run = Raise e ∧ carries_hint e)).

(** One invocation of [f] runs the command [cmd] once, runs no other
    command, makes no pause, and returns [None] or raises a terminal
    error with a hint. *)
Definition runs_once {X A} (f : function X A) (args : A) (cmd : list string)
  : Prop :=
  ∀ w, ∃ evs,
    trace (snd (__call__ f args w)) = trace w ++ evs
    ∧ steps evs = [Call cmd]
    ∧ (fst (__call__ f args w) = Return VNone
       ∨ ∃ e, fst (__call__ f args w) = Raise e ∧ carries_hint e).

(** *** Listings by key *)

(** The shape the three compiled patterns share: [key\s*([^\s]+)]. *)
Definition key_pattern (key : string) : regex :=
  (Lit key ⊙ Star space Greedy ⊙ Group 1 (Plus not_space Greedy))%re.

(** A text is empty or starts with white space. *)
Definition starts_blank (s : string) : bool :=
  match s with
  | EmptyString => true
  | String c _ => is_space c
  end.

(** An output that gives a value per entry: each entry is the key,
    white space [ws], the value [tok], and what is [other] in the
    entry, which starts on the character after the value. *)
Fixpoint keyed_text (key : string) (es : list (string * string * string))
  : string :=
  match es with
  | [] => ""
  | (ws, tok, other) :: es' =>
      key +:+ ws +:+ tok +:+ other +:+ keyed_text key es'
  end.

(** The values are tokens, each followed by white space or by the end
    of the text, and the key occurs nowhere but at the head of the
    entries. *)
Fixpoint keyed_ok (key : string) (es : list (string * string * string))
  : bool :=
  match es with
  | [] => true
  | (ws, tok, other) :: es' =>
      all_chars space ws && is_token tok
      && starts_blank (other +:+ keyed_text key es')
      && free_of key other (keyed_text key es') && keyed_ok key es'
  end.

Definition values_of (es : list (string * string * string)) : list string :=
  (λ e, snd (fst e)) <$> es.

(* ================================================================== *)
(** ** The rest of the module: certificates on disk and the scan *)
(* ================================================================== *)

(** How [os.listdir] ends: with the names of the entries of the
    directory, or with an [OSError]. *)
Inductive listdir_outcome :=
| Listed (names : list string)
| NotListed (str : string).

Section Scan.
Context {X : Type}.

(** [os.path.isdir], [os.path.isfile] and [os.listdir], questions to
    the system. *)
Variable os_path_isdir : string → X → bool.
Variable os_path_isfile : string → X → bool.
Variable os_listdir : string → X → listdir_outcome.

Definition isfile (p : string) : M X bool :=
  λ w, (Return (os_path_isfile p (system w)), w).

Definition listdir (p : string) : M X (list string) :=
  λ w, match os_listdir p (system w) with
       | Listed names => (Return names, w)
       | NotListed str => (Raise (OSError str), w)
       end.

(** [[os.path.join(path, f) for f in names
      if os.path.isfile(os.path.join(context.full_path(path), f))]] *)
Fixpoint curr_certs_of (context : IsolatedActions X) (path : string)
    (names : list string) : M X (list string) :=
  match names with
  | [] => ret []
  | f :: names' =>
      (is_file <- isfile (path_join (full_path context path) f) ;;
       rest <- curr_certs_of context path names' ;;
       ret (if is_file then path_join path f :: rest else rest))%py
  end.

(** The loop over the directories, [certs] being the list built so
    far. *)
Fixpoint collect_certs (context : IsolatedActions X) (paths : list string)
    (certs : list string) : M X (list string) :=
  match paths with
  | [] => ret certs
  | path :: paths' =>
      (is_dir <- isdir os_path_isdir (full_path context path) ;;
       if negb is_dir then collect_certs context paths' certs
       else
         names <- listdir (full_path context path) ;;
         curr_certs <- curr_certs_of context path names ;;
         collect_certs context paths'
           (match curr_certs with
            | _ :: _ => certs ++ curr_certs
            | [] => certs
            end))%py
  end.

(** The environment of the process when the module is imported. *)
Variable import_environ : gmap string string.

Definition get_existing_product_certificates_def
  : function X (IsolatedActions X) :=
  Def "get_existing_product_certificates" (λ context,
    certs <- collect_certs context
               ["/etc/pki/product"; "/etc/pki/product-default"] [] ;;
    ret (VList certs))%py.
Definition get_existing_product_certificates :=
  with_rhsm import_environ get_existing_product_certificates_def.

(** What [scan_rhsm_info] stores in a field of the model.  Its body
    runs only in a module imported with the switch off, where the
    functions it calls return a list, or a string for the release. *)
Definition as_list (v : value) : list string :=
  match v with VList l => l | _ => [] end.
Definition as_str (v : value) : string :=
  match v with VStr s => s | _ => "" end.

(** The body of [scan_rhsm_info]. *)
Definition scan_rhsm_info_def (context : IsolatedActions X) : M X RHSMInfo :=
  (skus <- __call__ (get_attached_skus import_environ) context ;;
   available <- __call__ get_available_repo_ids (context, None) ;;
   enabled <- __call__ (get_enabled_repo_ids import_environ) context ;;
   rel <- __call__ (get_release import_environ) context ;;
   certs <- __call__ get_existing_product_certificates context ;;
   ret (MkRHSMInfo (as_list skus) (as_list available) (as_list enabled)
          (as_str rel) ([] ++ as_list certs)))%py.

(** [scan_rhsm_info] as the module binds it: [with_rhsm] at the return
    type of the scan, [None] standing for the [None] of the function
    that does nothing. *)
Definition scan_rhsm_info (context : IsolatedActions X)
  : M X (option RHSMInfo) :=
  if skip_rhsm import_environ then ret None
  else (info <- scan_rhsm_info_def context ;; ret (Some info))%py.

End Scan.

(** *** Vocabulary for the certificates on disk *)

(** The certificates of one directory in the system state [x]: the
    entries of its listing that are files, each joined to the path of
    the directory by which the library names it. *)
Definition certs_in {X} (os_path_isfile : string → X → bool)
    (context : IsolatedActions X) (path : string) (names : list string)
    (x : X) : list string :=
  path_join path <$>
    filter (λ f, os_path_isfile (path_join (full_path context path) f) x = true)
      names.

(** The entries of a directory, none for a path that is no directory
    or cannot be listed. *)
Definition entries_of {X} (os_path_isdir : string → X → bool)
    (os_listdir : string → X → listdir_outcome)
    (context : IsolatedActions X) (path : string) (x : X) : list string :=
  if os_path_isdir (full_path context path) x then
    match os_listdir (full_path context path) x with
    | Listed names => names
    | NotListed _ => []
    end
  else [].

(** A directory that exists and cannot be listed. *)
Definition unlistable {X} (os_path_isdir : string → X → bool)
    (os_listdir : string → X → listdir_outcome)
    (context : IsolatedActions X) (path : string) (x : X)
  : option string :=
  if os_path_isdir (full_path context path) x then
    match os_listdir (full_path context path) x with
    | Listed _ => None
    | NotListed str => Some str
    end
  else None.

(** A small system: the directories with their entries, and the paths
    that are files. *)
Definition disk := (gmap string (list string) * list string)%type.
Definition disk_isdir (p : string) (d : disk) : bool :=
  bool_decide (is_Some (fst d !! p)).
Definition disk_isfile (p : string) (d : disk) : bool :=
  bool_decide (p ∈ snd d).
Definition disk_listdir (p : string) (d : disk) : listdir_outcome :=
  match fst d !! p with
  | Some names => Listed names
  | None => NotListed "No such file or directory"
  end.
Definition disk_context : IsolatedActions disk :=
  MkContext (λ _ x, (Exit0 (MkCallResult "" ""), x))
            (λ _ x, (None, x)) (λ _ _ x, (None, x)) (λ p, p) false.
Definition disk_world (d : disk) : World disk := MkWorld ∅ d [].


(** *** Removing any number of certificates *)

(** The calls of the removal attempts on [certs], made one after the
    other from the system state [x], and the state they leave. *)
Fixpoint removal_attempts {X} (context : IsolatedActions X)
    (certs : list string) (x : X) : list event * X :=
  match certs with
  | [] => ([], x)
  | existing :: certs' =>
      let r := ctx_remove context existing x in
      let rest := removal_attempts context certs' (snd r) in
      (removal_events existing (fst r) ++ fst rest, snd rest)
  end.

Definition is_warning (ev : event) : bool :=
  match ev with Log WARNING _ _ => true | _ => false end.


(** *** Queries and the scan *)

(** Logging and reporting. *)
Definition is_note (ev : event) : bool :=
  match ev with
  | Log _ _ _ | CreateReport _ => true
  | _ => false
  end.

(** A run from [w] ran the command [cmd], once, and apart from it only
    logged and reported: no other command, no pause, no removal and no
    copy. *)
Definition one_command {X A} (cmd : list string) (w : World X)
    (run : result A * World X) : Prop :=
  ∃ notes, trace (snd run) = trace w ++ Call cmd :: notes
           ∧ Forall (λ ev, is_note ev = true) notes.

(** The commands of a scan. *)
Definition scan_commands : list event :=
  [Call ["subscription-manager"; "list"; "--consumed"];
   Call ["yum"; "repoinfo"];
   Call ["subscription-manager"; "repos"; "--list-enabled"];
   Call ["subscription-manager"; "release"]].

(** A context over a system without state in which each command prints
    what [out] gives for it. *)
Definition printing_context (out : list string → string)
  : IsolatedActions unit :=
  MkContext (λ cmd x, (Exit0 (MkCallResult (out cmd) ""), x))
            (λ _ x, (None, x)) (λ _ _ x, (None, x)) (λ p, p) false.

(** A run from [w] ran commands of [cmds] only, from the first on and
    in their order, all of them if it returned, and apart from them
    only logged and reported. *)
Definition runs_in_order {X A} (cmds : list event) (w : World X)
    (run : result A * World X) : Prop :=
  ∃ evs, trace (snd run) = trace w ++ evs
         ∧ commands evs `prefix_of` cmds
         ∧ (∀ a, fst run = Return a → commands evs = cmds)
         ∧ Forall (λ ev, is_call ev = true ∨ is_note ev = true) evs.


(** *** The output of [yum repoinfo] *)

(** One repository of the output: the white space around the colon of
    the [Repo-id] line, the id, what follows the id on its line, the
    lines of the other fields, the white space and the path of the
    [Repo-filename] line, and the text between this repository and the
    next. *)
Record repo_entry := RepoEntry {
  e_ws1 : string;
  e_ws2 : string;
  e_id : string;
  e_tail : string;
  e_mid : string;
  e_ws3 : string;
  e_file : string;
  e_after : string
}.

Definition id_line (e : repo_entry) : string :=
  e_ws1 e +:+ ":" +:+ e_ws2 e +:+ e_id e +:+ e_tail e +:+ nl.
Definition filename_line (e : repo_entry) : string :=
  ":" +:+ e_ws3 e +:+ e_file e +:+ nl.

(** The text of the repository, from [Repo-id] to the end of the
    [Repo-filename] line. *)
Definition block_of (e : repo_entry) : string :=
  "Repo-id" +:+ id_line e +:+ e_mid e +:+ "Repo-filename" +:+ filename_line e.

Fixpoint repoinfo_text (es : list repo_entry) : string :=
  match es with
  | [] => ""
  | e :: es' => block_of e +:+ e_after e +:+ repoinfo_text es'
  end.

Definition not_newline : charset := λ c, negb (Ascii.eqb c nl_char).
Definition id_char : charset := λ c, not_space c && not_slash c.

(** White space, at least one character of it. *)
Definition blank (s : string) : bool :=
  match s with
  | EmptyString => false
  | _ => all_chars space s
  end.

Definition starts_with (cs : charset) (s : string) : bool :=
  match s with
  | EmptyString => false
  | String c _ => cs c
  end.

(** The repository is printed the way yum prints it: white space
    around the colon, an id without white space and without slash,
    followed by the end of the line or by a slash and the rest of the
    line; other fields in whole lines that do not hold the name
    [Repo-filename]; a path that starts after white space on the line
    of [Repo-filename] and ends with it; and no [Repo-id] before the
    next repository. *)
Definition entry_ok (e : repo_entry) (rest : string) : bool :=
  blank (e_ws1 e) && blank (e_ws2 e)
  && starts_with id_char (e_id e) && all_chars id_char (e_id e)
  && match e_tail e with
     | EmptyString => true
     | String c t => Ascii.eqb c "/" && all_chars not_newline t
     end
  && bool_decide (last_char (Some nl_char) (e_mid e) = Some nl_char)
  && free_of "Repo-filename" (id_line e +:+ e_mid e)
       ("Repo-filename" +:+ filename_line e)
  && blank (e_ws3 e) && all_chars not_newline (e_ws3 e)
  && starts_with not_space (e_file e) && all_chars not_newline (e_file e)
  && free_of "Repo-id" (e_after e) rest.

Fixpoint entries_ok (es : list repo_entry) : bool :=
  match es with
  | [] => true
  | e :: es' => entry_ok e (repoinfo_text es') && entries_ok es'
  end.

(** What the library makes of a repository of the output. *)
Definition repository_of (e : repo_entry) : Repository :=
  MkRepository (e_id e) (e_file e).

(* ================================================================== *)
(** * Properties *)
(* ================================================================== *)


(** ** The retry wrapper *)

Section RetryProofs.
Context {X A : Type}.
Variables (max_attempts : Z) (sleep : option nat).
Variables (f : function X A) (args : A).

Lemma wrapper_loop_step a w :
  wrapper_loop max_attempts sleep f args a w =
  try_except (__call__ f args) (λ e,
    match e with
    | StopActorExecutionError _ _ =>
        Some
          (if decide (max_attempts ≤ a + 1)%Z
           then give_up_warning max_attempts f (a + 1) ;; raise e
           else retry_notice max_attempts sleep f (a + 1) ;;
                wrapper_loop max_attempts sleep f args (a + 1))
    | _ => None
    end) w.
Proof.
  pose proof (wrapper_loop_equation_1 max_attempts sleep f args a) as E.
  apply (f_equal (λ g, g w)) in E. exact E.
Qed.

Lemma retry_notice_returns a w :
  fst (retry_notice max_attempts sleep f a w) = Return ().
Proof. unfold retry_notice. destruct sleep as [[|n]|]; reflexivity. Qed.

Lemma wrapper_loop_failure a w m d w1 :
  __call__ f args w = (Raise (StopActorExecutionError m d), w1) →
  (a + 1 < max_attempts)%Z →
  wrapper_loop max_attempts sleep f args a w =
  wrapper_loop max_attempts sleep f args (a + 1)
    (snd (retry_notice max_attempts sleep f (a + 1) w1)).
Proof.
  intros Hf Hlt. rewrite wrapper_loop_step.
  unfold try_except. rewrite Hf.
  destruct (decide _) as [Hle|_]; [lia|].
  unfold bind.
  pose proof (retry_notice_returns (a + 1) w1) as Hn.
  destruct (retry_notice _ _ _ _ w1) as [r w2]. simpl in *. subst r. reflexivity.
Qed.

Lemma wrapper_loop_last a w m d w1 :
  __call__ f args w = (Raise (StopActorExecutionError m d), w1) →
  (max_attempts ≤ a + 1)%Z →
  wrapper_loop max_attempts sleep f args a w =
  (Raise (StopActorExecutionError m d),
   snd (give_up_warning max_attempts f (a + 1) w1)).
Proof.
  intros Hf Hlt. rewrite wrapper_loop_step.
  unfold try_except. rewrite Hf.
  destruct (decide _) as [_|Hle]; [|lia]. reflexivity.
Qed.

Lemma wrapper_loop_success a w v w1 :
  __call__ f args w = (Return v, w1) →
  wrapper_loop max_attempts sleep f args a w = (Return v, w1).
Proof.
  intros Hf. rewrite wrapper_loop_step.
  unfold try_except. rewrite Hf. reflexivity.
Qed.

Lemma wrapper_after_failures k w :
  (Z.of_nat k < max_attempts)%Z →
  (∀ j, (1 ≤ j ≤ k)%nat → fails (attempt max_attempts sleep f args j w)) →
  wrapper max_attempts sleep f args w =
  wrapper_loop max_attempts sleep f args (Z.of_nat k)
    (after_failures max_attempts sleep f args k w).
Proof.
  induction k as [|k IH]; intros Hk Hfail; [reflexivity|].
  rewrite IH by (try lia; intros j Hj; apply Hfail; lia).
  destruct (Hfail (S k) ltac:(lia)) as (m & d & Hf).
  unfold attempt in Hf. replace (S k - 1)%nat with k in Hf by lia.
  destruct (__call__ f args _) as [r w1] eqn:E. simpl in Hf. subst r.
  rewrite (wrapper_loop_failure _ _ _ _ _ E) by lia.
  simpl after_failures. rewrite E. simpl snd.
  replace (Z.of_nat k + 1)%Z with (Z.of_nat (S k)) by lia. reflexivity.
Qed.
End RetryProofs.

Section RetryCount.
Context {X A : Type}.
Variables (max_attempts : Z) (sleep : option nat).
Variables (f : function X A) (args : A).

Lemma counted_invocations (w : World (X * nat)) :
  invocations (snd (__call__ (counted f) args w)) = S (invocations w).
Proof.
  unfold counted, invocations. simpl.
  destruct (__call__ f args (forget w)) as [r w']. reflexivity.
Qed.

Lemma retry_notice_system a (w : World (X * nat)) :
  system (snd (retry_notice max_attempts sleep (counted f) a w)) = system w.
Proof. unfold retry_notice. destruct sleep as [[|n]|]; reflexivity. Qed.

Lemma after_failures_invocations k (w : World (X * nat)) :
  invocations (after_failures max_attempts sleep (counted f) args k w)
  = (invocations w + k)%nat.
Proof.
  induction k as [|k IH]; [simpl; lia|].
  cbn [after_failures]. unfold invocations at 1.
  rewrite retry_notice_system.
  change (invocations (snd (__call__ (counted f) args
            (after_failures max_attempts sleep (counted f) args k w)))
          = invocations w + S k).
  rewrite counted_invocations, IH. lia.
Qed.
End RetryCount.

(** C1.  With [max_attempts = N ≥ 1]: if each of the [N] invocations
    raises the terminal error, the wrapper invokes the operation exactly
    [N] times and ends with the outcome of the [N]-th invocation, that
    is, it raises the error that invocation raised; if the first
    invocation to return is number [j ≤ N], the wrapper invokes the
    operation exactly [j] times and returns that invocation's value.
    Invocations are counted by [counted]; [attempt N sleep g args j w]
    is the [j]-th of them. *)
Theorem rhsm_retry_attempts {X A} (N : Z) (sleep : option nat)
    (f : function X A) (args : A) (w : World (X * nat)) :
  (1 ≤ N)%Z →
  let g := counted f in
  let run := __call__ (_rhsm_retry N sleep g) args w in
  ((∀ j, 1 ≤ j ≤ Z.to_nat N → fails (attempt N sleep g args j w)) →
     fst run = fst (attempt N sleep g args (Z.to_nat N) w)
     ∧ invocations (snd run) = invocations w + Z.to_nat N)
  ∧ (∀ j v, 1 ≤ j ≤ Z.to_nat N →
       (∀ i, 1 ≤ i < j → fails (attempt N sleep g args i w)) →
       fst (attempt N sleep g args j w) = Return v →
       fst run = Return v ∧ invocations (snd run) = invocations w + j).
Proof.
  intros HN g run. subst run. simpl __call__. split.
  - intros Hfail.
    rewrite (wrapper_after_failures N sleep g args (Z.to_nat N - 1))
      by (try lia; intros j Hj; apply Hfail; lia).
    destruct (Hfail (Z.to_nat N) ltac:(lia)) as (m & d & Hf).
    unfold attempt in *.
    destruct (__call__ g args _) as [r w1] eqn:E. simpl in Hf. subst r.
    rewrite (wrapper_loop_last _ _ _ _ _ _ _ _ _ E) by lia.
    split; [reflexivity|].
    change (invocations w1 = invocations w + Z.to_nat N).
    replace w1 with (snd (__call__ g args
      (after_failures N sleep g args (Z.to_nat N - 1) w)))
      by (rewrite E; reflexivity).
    subst g. rewrite counted_invocations, after_failures_invocations. lia.
  - intros j v Hj Hfail Hok.
    rewrite (wrapper_after_failures N sleep g args (j - 1))
      by (try lia; intros i Hi; apply Hfail; lia).
    unfold attempt in *.
    destruct (__call__ g args _) as [r w1] eqn:E. simpl in Hok. subst r.
    rewrite (wrapper_loop_success _ _ _ _ _ _ _ _ E).
    split; [reflexivity|]. simpl.
    replace w1 with (snd (__call__ g args
      (after_failures N sleep g args (j - 1) w)))
      by (rewrite E; reflexivity).
    subst g. rewrite counted_invocations, after_failures_invocations. lia.
Qed.

Lemma rhsm_retry_attempts_witness :
  let all_fail := __call__ (_rhsm_retry 3 (Some 5) (counted flaky)) ()
                    (MkWorld ∅ (5, 0) []) in
  let second_ok := __call__ (_rhsm_retry 3 (Some 5) (counted flaky)) ()
                     (MkWorld ∅ (1, 0) []) in
  (fst all_fail = Raise (StopActorExecutionError "busy" None)
   ∧ invocations (snd all_fail) = 3)
  ∧ (fst second_ok = Return (VStr "done")
     ∧ invocations (snd second_ok) = 2).
Proof.
  split.
  - destruct (rhsm_retry_attempts 3 (Some 5) flaky () (MkWorld ∅ (5, 0) [])
                ltac:(lia)) as [H _].
    apply H. intros j Hj.
    assert (j = 1 ∨ j = 2 ∨ j = 3) as [->|[->| ->]] by (simpl in Hj; lia);
      eexists _, _; reflexivity.
  - destruct (rhsm_retry_attempts 3 (Some 5) flaky () (MkWorld ∅ (1, 0) [])
                ltac:(lia)) as [_ H].
    apply (H 2 (VStr "done")).
    + simpl. lia.
    + intros i Hi. replace i with 1 by lia. eexists _, _; reflexivity.
    + reflexivity.
Defined.

(** ** The skip switch *)

(** C2, as stated: the switch would be read when the operation is
    called.  It is not: the module imported with the switch absent runs
    [get_release] although the switch is on at the time of the call. *)
Lemma skip_read_at_call_counterexample :
  ¬ (∀ (import_environ : gmap string string) (context : IsolatedActions unit)
       (w : World unit),
       __call__ (get_release import_environ) context w =
       if skip_rhsm (environ w) then (Return VNone, w)
       else __call__ get_release_def context w).
Proof.
  intros H.
  specialize (H ∅ (quiet_context false "" "") (MkWorld switch_on () [])).
  vm_compute in H. discriminate H.
Qed.

(** C2, amended.  Whether a gated operation is skipped is decided by the
    value the switch has when the decorator is applied, at import: if it
    is "1" then, every call returns [None] at once and leaves the world
    as it is (no command, no exception), otherwise every call is a call
    of the operation itself.  The environment at the time of the call
    plays no part. *)
Theorem with_rhsm_decided_at_import {X A} (env : gmap string string)
    (f : function X A) (args : A) (w : World X) :
  __call__ (with_rhsm env f) args w =
    (if skip_rhsm env then (Return VNone, w) else __call__ f args w)
  ∧ skip_rhsm env = bool_decide (env !! "LEAPP_DEVEL_SKIP_RHSM" = Some "1").
Proof.
  split.
  - unfold with_rhsm. destruct (skip_rhsm env); reflexivity.
  - unfold skip_rhsm, getenv.
    destruct (env !! "LEAPP_DEVEL_SKIP_RHSM") as [v|] eqn:E; simpl.
    + destruct (decide (v = "1")) as [->|Hne].
      * rewrite !bool_decide_eq_true_2; done.
      * rewrite !bool_decide_eq_false_2; congruence.
    + reflexivity.
Qed.

(** ** Facts about the matcher *)

Section Strings.
Lemma append_cons (x : ascii) (a b : string) :
  String x a +:+ b = String x (a +:+ b).
Proof. reflexivity. Qed.

Lemma append_assoc (a b c : string) : (a +:+ b) +:+ c = a +:+ (b +:+ c).
Proof.
  induction a as [|x a IH]; [reflexivity|].
  rewrite !append_cons. by rewrite IH.
Qed.

Lemma append_nil_r (a : string) : a +:+ "" = a.
Proof.
  induction a as [|x a IH]; [reflexivity|].
  rewrite append_cons. by rewrite IH.
Qed.

Lemma length_append (a b : string) :
  String.length (a +:+ b) = String.length a + String.length b.
Proof.
  induction a as [|x a IH]; [reflexivity|].
  rewrite append_cons. simpl. by rewrite IH.
Qed.

Lemma substring_append (a b : string) :
  String.substring 0 (String.length a) (a +:+ b) = a.
Proof.
  induction a as [|x a IH].
  - destruct b; reflexivity.
  - rewrite append_cons. simpl. by rewrite IH.
Qed.

Lemma substring_append_eq (n : nat) (a b : string) :
  n = String.length a → String.substring 0 n (a +:+ b) = a.
Proof. intros ->. apply substring_append. Qed.

Lemma last_char_append prev (a b : string) :
  last_char prev (a +:+ b) = last_char (last_char prev a) b.
Proof.
  revert prev. induction a as [|x a IH]; intros prev; [reflexivity|].
  rewrite append_cons. simpl. apply IH.
Qed.
End Strings.

Section Matcher.
Implicit Types (r : regex) (s t : string) (prev : option ascii).

(** Reading a literal off the front of a text. *)
Lemma lit_append s prev t :
  lit s prev (s +:+ t) = Some (last_char prev s, t).
Proof.
  revert prev. induction s as [|c s IH]; intros prev; [reflexivity|].
  rewrite append_cons. simpl. rewrite Ascii.eqb_refl. apply IH.
Qed.

(** A literal only matches where it is a prefix. *)
Lemma lit_prefix s prev t :
  is_Some (lit s prev t) → String.prefix s t = true.
Proof.
  revert prev t. induction s as [|c s IH]; intros prev t.
  - destruct t; reflexivity.
  - destruct t as [|d t]; simpl; [intros [? [=]]|].
    destruct (Ascii.eqb_spec c d) as [->|Hne]; [|intros [? [=]]].
    destruct (ascii_dec d d); [|done]. apply IH.
Qed.

(** A greedy repetition takes a whole run of the class when what
    follows the run lets the rest of the pattern match. *)
Lemma rep_greedy_run cs min prev pos s t caps k m :
  all_chars cs s = true →
  min ≤ String.length s →
  match t with EmptyString => True | String c _ => cs c = false end →
  k (MState (last_char prev s) (pos + String.length s) t caps) = Some m →
  rep cs Greedy min prev pos (s +:+ t) caps k = Some m.
Proof.
  revert min prev pos.
  induction s as [|c s IH]; intros min prev pos Hall Hmin Hstop Hk.
  - simpl in *. assert (min = 0) as -> by lia.
    change ("" +:+ t) with t. rewrite Nat.add_0_r in Hk.
    destruct t as [|d t]; simpl; [by rewrite Hk|].
    by rewrite Hstop, Hk.
  - rewrite append_cons. simpl in *.
    apply andb_prop in Hall as [Hc Hall]. rewrite Hc.
    rewrite (IH (Nat.pred min) (Some c) (S pos)); [reflexivity|done|lia|done|].
    rewrite <- Hk. do 2 f_equal. lia.
Qed.

(** Unfolding [finditer_from]. *)
Lemma finditer_from_skip r n prev c s :
  finditer_from r (S n) prev (String c s) = finditer_from r n (Some c) s.
Proof. reflexivity. Qed.

Lemma finditer_from_miss r prev c s :
  match_at r prev (String c s) = None →
  finditer_from r 0 prev (String c s) = finditer_from r 0 (Some c) s.
Proof. intros H. simpl. by rewrite H. Qed.

Lemma finditer_from_hit r prev c s m :
  match_at r prev (String c s) = Some m →
  finditer_from r 0 prev (String c s) =
  m :: finditer_from r (Nat.pred (String.length (group0 m))) (Some c) s.
Proof. intros H. simpl. by rewrite H. Qed.

Lemma finditer_from_skip_all r prev s t :
  finditer_from r (String.length s) prev (s +:+ t) =
  finditer_from r 0 (last_char prev s) t.
Proof.
  revert prev. induction s as [|c s IH]; intros prev; [reflexivity|].
  simpl String.length. rewrite append_cons, finditer_from_skip. apply IH.
Qed.

(** A pattern that starts with a literal finds nothing in a text where
    the literal does not occur. *)
Lemma match_at_lit_prefix l r prev s :
  is_Some (match_at (Lit l ⊙ r) prev s) → String.prefix l s = true.
Proof.
  unfold match_at. simpl.
  destruct (lit l prev s) as [[p t]|] eqn:E; [|intros [? [=]]].
  intros _. apply (lit_prefix l prev). by rewrite E.
Qed.

Lemma occurs_false l s :
  occurs l s = false →
  String.prefix l s = false
  ∧ match s with EmptyString => True | String _ s' => occurs l s' = false end.
Proof.
  destruct s as [|c s]; cbn [occurs]; intros H;
    apply orb_false_elim in H as [Hp H]; done.
Qed.

Lemma match_at_no_prefix l r prev s :
  String.prefix l s = false → match_at (Lit l ⊙ r) prev s = None.
Proof.
  intros Hp. destruct (match_at _ _ _) eqn:E; [|reflexivity].
  rewrite (match_at_lit_prefix l r prev s) in Hp; [done|by rewrite E].
Qed.

Lemma finditer_from_no_occurrence l r n prev s :
  occurs l s = false → finditer_from (Lit l ⊙ r) n prev s = [].
Proof.
  revert n prev. induction s as [|c s IH]; intros n prev Hocc;
    apply occurs_false in Hocc as [Hp Hocc].
  - destruct n; [|reflexivity].
    cbn [finditer_from]. by rewrite match_at_no_prefix.
  - destruct n as [|n]; [|rewrite finditer_from_skip; by apply IH].
    rewrite finditer_from_miss; [by apply IH|by apply match_at_no_prefix].
Qed.
End Matcher.

Section Duplicates.
Implicit Types (x t : string) (prev : option ascii).

Lemma is_token_length x : is_token x = true → 1 ≤ String.length x.
Proof. destruct x; [done|simpl; lia]. Qed.

Lemma is_token_all x : is_token x = true → all_chars not_space x = true.
Proof. by destruct x. Qed.

(** The pattern matches the head of a warning about [x], whatever
    follows, and its group is [x]. *)
Lemma match_at_duplicate prev x t :
  is_token x = true →
  match_at _RE_DUPLICATE prev
    ("Repository " +:+ x +:+ " is listed more than once" +:+ t)
  = Some (Match ("Repository " +:+ x +:+ " is listed more than once")
                {[ 1 := x ]}).
Proof.
  intros Hx. unfold match_at, _RE_DUPLICATE.
  cbn [rmatch m_prev m_pos m_rest m_caps].
  rewrite lit_append.
  erewrite rep_greedy_run;
    [ | by apply is_token_all | by apply is_token_length | reflexivity | ].
  2:{ cbn [m_prev m_pos m_rest m_caps]. rewrite lit_append. reflexivity. }
  cbn [m_pos m_rest m_caps]. unfold consumed. cbn [m_pos m_rest].
  f_equal. f_equal.
  - replace ("Repository " +:+ x +:+ " is listed more than once" +:+ t)
      with (("Repository " +:+ x +:+ " is listed more than once") +:+ t)
      by (by rewrite !append_assoc).
    apply substring_append_eq. rewrite !length_append. simpl. lia.
  - rewrite substring_append_eq by (simpl; lia). reflexivity.
Qed.

Lemma match_at_not_R prev c t :
  c ≠ "R"%char → match_at _RE_DUPLICATE prev (String c t) = None.
Proof.
  intros Hc. apply match_at_no_prefix. cbn [String.prefix].
  destruct (ascii_dec _ c) as [E|E]; [congruence|reflexivity].
Qed.

(** Scanning one warning line yields its repository id and goes on
    with the next line. *)
Lemma finditer_duplicate_line prev x t :
  is_token x = true →
  finditer_from _RE_DUPLICATE 0 prev (duplicate_line x +:+ t)
  = Match ("Repository " +:+ x +:+ " is listed more than once") {[ 1 := x ]}
    :: finditer_from _RE_DUPLICATE 0 (Some nl_char) t.
Proof.
  intros Hx. unfold duplicate_line.
  set (tail := " in the configuration" +:+ nl).
  assert ("Repository " +:+ x +:+ " is listed more than once in the configuration" +:+ nl
          = "Repository " +:+ x +:+ " is listed more than once" +:+ tail) as ->.
  { reflexivity. }
  rewrite !append_assoc.
  change ("Repository " +:+ x +:+ " is listed more than once" +:+ tail +:+ t)
    with (String "R" ("epository " +:+ x +:+ " is listed more than once" +:+ tail +:+ t)).
  erewrite finditer_from_hit; [|by apply (match_at_duplicate prev x (tail +:+ t))].
  f_equal. cbn [group0].
  change ("Repository " +:+ x +:+ " is listed more than once")
    with (String "R" ("epository " +:+ x +:+ " is listed more than once")).
  cbn [String.length Nat.pred].
  replace ("epository " +:+ x +:+ " is listed more than once" +:+ tail +:+ t)
    with (("epository " +:+ x +:+ " is listed more than once") +:+ tail +:+ t)
    by (by rewrite !append_assoc).
  rewrite finditer_from_skip_all.
  unfold tail. rewrite append_assoc.
  cbv [String.append nl].
  repeat (rewrite finditer_from_miss by (by apply match_at_not_R)).
  reflexivity.
Qed.

Lemma finditer_duplicate_lines prev ids :
  forallb is_token ids = true →
  (λ m, default "" (group m 1)) <$>
    finditer_from _RE_DUPLICATE 0 prev (concat_lines (duplicate_line <$> ids))
  = ids.
Proof.
  revert prev. induction ids as [|x ids IH]; intros prev Hids.
  - reflexivity.
  - simpl in Hids. apply andb_prop in Hids as [Hx Hids].
    cbn [fmap list_fmap concat_lines].
    rewrite finditer_duplicate_line by done.
    cbn [fmap list_fmap]. rewrite IH by done.
    unfold group. cbn [groups]. by rewrite lookup_singleton_eq.
Qed.
End Duplicates.

(** ** Duplicate repositories *)

(** C3, as stated: the report would list each repeated id once.  A
    repository that yum warns about twice is listed twice. *)
Lemma duplicates_distinct_counterexample :
  ¬ (∀ (repos_raw_stderr : string) (w : World unit),
       _inhibit_on_duplicate_repos repos_raw_stderr w =
       (Return VNone,
        record (duplicate_events
                  (distinct (findall1 _RE_DUPLICATE repos_raw_stderr))) w)).
Proof.
  intros H.
  specialize (H (duplicate_line "epel" +:+ duplicate_line "epel") empty_world).
  vm_compute in H. discriminate H.
Qed.

Lemma inhibit_on_duplicate_repos_run {X} (repos_raw_stderr : string)
    (w : World X) :
  _inhibit_on_duplicate_repos repos_raw_stderr w =
    (Return VNone,
     record (duplicate_events (findall1 _RE_DUPLICATE repos_raw_stderr)) w).
Proof.
  unfold _inhibit_on_duplicate_repos.
  destruct (findall1 _RE_DUPLICATE repos_raw_stderr) as [|id ids].
  - destruct w. unfold record. simpl. by rewrite app_nil_r.
  - destruct w. unfold record, duplicate_events, listing.
    unfold bind, logger, create_report, emit, ret. simpl.
    by rewrite <- app_assoc.
Qed.

(** C3, amended.  Duplicate detection collects the ids of all the
    matches of the pattern in the error text, in order and with their
    repetitions; if there is none it does nothing, otherwise it logs one
    warning and creates one report of medium severity with the inhibitor
    flag, both listing the collected ids; it always returns, and changes
    nothing else.  On an error text made of warning lines of yum, the ids
    collected are those of the lines, one per line. *)
Theorem inhibit_on_duplicate_repos_reports {X} (repos_raw_stderr : string)
    (w : World X) :
  _inhibit_on_duplicate_repos repos_raw_stderr w =
    (Return VNone,
     record (duplicate_events (findall1 _RE_DUPLICATE repos_raw_stderr)) w)
  ∧ (∀ ids, forallb is_token ids = true →
       findall1 _RE_DUPLICATE (concat_lines (duplicate_line <$> ids)) = ids).
Proof.
  split.
  - apply inhibit_on_duplicate_repos_run.
  - intros ids Hids. by apply finditer_duplicate_lines.
Qed.

Lemma inhibit_on_duplicate_repos_reports_witness :
  findall1 _RE_DUPLICATE
    (concat_lines (duplicate_line <$> ["epel"; "rhel-7-server-rpms"; "epel"]))
  = ["epel"; "rhel-7-server-rpms"; "epel"].
Proof.
  apply (inhibit_on_duplicate_repos_reports "" empty_world). reflexivity.
Defined.

(** ** Which exceptions come out *)

Section Raises.
Context {X : Type}.
Implicit Types (P : exn → Prop) (w : World X).

Lemma raises_only_ret {A} P (a : A) : raises_only (X:=X) P (ret a).
Proof. intros w e [=]. Qed.

Lemma raises_only_raise {A} P e : P e → raises_only (X:=X) (A:=A) P (raise e).
Proof. intros He w e' [= <-]. exact He. Qed.

Lemma raises_only_emit P ev : raises_only (X:=X) P (emit ev).
Proof. intros w e [=]. Qed.

Lemma raises_only_bind {A B} P (m : M X A) (k : A → M X B) :
  raises_only P m → (∀ a, raises_only P (k a)) → raises_only P (bind m k).
Proof.
  intros Hm Hk w e. unfold bind.
  destruct (m w) as [[a|e'] w'] eqn:E.
  - apply Hk.
  - intros [= <-]. apply (Hm w). by rewrite E.
Qed.

Lemma raises_only_weaken {A} P Q (m : M X A) :
  (∀ e, P e → Q e) → raises_only P m → raises_only Q m.
Proof. intros HPQ Hm w e He. apply HPQ, (Hm w e He). Qed.

(** A handler that takes every exception the body can raise decides
    what comes out. *)
Lemma raises_only_try_except {A} P Q (body : M X A) handler :
  raises_only P body →
  (∀ e, P e → ∃ h, handler e = Some h ∧ raises_only Q h) →
  raises_only Q (try_except body handler).
Proof.
  intros Hb Hh w e. unfold try_except.
  destruct (body w) as [[a|e'] w'] eqn:E; [intros [=]|].
  destruct (Hh e') as (h & -> & Hq); [apply (Hb w); by rewrite E|].
  apply Hq.
Qed.

Lemma raises_only_call P (context : IsolatedActions X) cmd :
  (∀ e, runner_error e → P e) → raises_only P (call context cmd).
Proof.
  intros HP w e. unfold call, bind, emit, on_system. simpl.
  destruct (ctx_call context cmd (system w)) as [[r|s err|s] x];
    simpl; intros [= <-]; by apply HP.
Qed.

(** Whatever the command runner raises inside the [with] block comes
    out as a terminal error with a hint. *)
Lemma handle_rhsm_exceptions_hint {A} hint (body : M X A) :
  raises_only runner_error body →
  raises_only carries_hint (_handle_rhsm_exceptions hint body).
Proof.
  intros Hb. eapply raises_only_try_except; [exact Hb|].
  intros [m d|s err|s|l] He; try done.
  - eexists; split; [reflexivity|].
    apply raises_only_raise. eexists _, _. split; [reflexivity|].
    split; [done|]. rewrite lookup_insert_ne, lookup_insert_ne by done.
    rewrite lookup_singleton_eq. by eexists.
  - eexists; split; [reflexivity|].
    apply raises_only_bind; [apply raises_only_emit|]. intros _.
    apply raises_only_raise. eexists _, _. split; [reflexivity|].
    split; [done|]. rewrite lookup_singleton_eq. by eexists.
Qed.

(** The retry wrapper raises nothing the operation does not raise. *)
Lemma raises_only_wrapper {A} P max_attempts sleep (f : function X A) args :
  raises_only P (__call__ f args) →
  ∀ attempts0, raises_only P (wrapper_loop max_attempts sleep f args attempts0).
Proof.
  intros Hf attempts0.
  remember (Z.to_nat (max_attempts - attempts0)) as n eqn:Hn.
  revert attempts0 Hn.
  induction (lt_wf n) as [n _ IH]. intros a Hn w e.
  rewrite wrapper_loop_step. unfold try_except.
  destruct (__call__ f args w) as [[v|e'] w1] eqn:E; [intros [=]|].
  assert (P e') as He' by (apply (Hf w); by rewrite E).
  destruct e' as [m d|s err|s|l]; try (by intros [= <-]).
  destruct (decide _) as [Hle|Hgt].
  - intros [= <-]. exact He'.
  - unfold bind.
    pose proof (retry_notice_returns max_attempts sleep f (a + 1) w1) as Hr.
    destruct (retry_notice _ _ _ _ w1) as [r w2]. simpl in Hr. subst r.
    eapply (IH (Z.to_nat (max_attempts - (a + 1)))); [lia|reflexivity].
Qed.

Lemma raises_only_rhsm_retry {A} P max_attempts sleep (f : function X A) args :
  raises_only P (__call__ f args) →
  raises_only P (__call__ (_rhsm_retry max_attempts sleep f) args).
Proof. intros Hf. by apply raises_only_wrapper. Qed.

Lemma raises_only_with_rhsm {A} P env (f : function X A) args :
  raises_only P (__call__ f args) →
  raises_only P (__call__ (with_rhsm env f) args).
Proof.
  intros Hf. unfold with_rhsm. destruct (skip_rhsm env); [|exact Hf].
  apply raises_only_ret.
Qed.
End Raises.

Section SubscriptionManagerBodies.
Context {X : Type}.
Implicit Types (context : IsolatedActions X).

Lemma runner_call_then {A} context cmd (k : CallResult → M X A) :
  (∀ r, raises_only runner_error (k r)) →
  raises_only runner_error (bind (call context cmd) k).
Proof. intros Hk. apply raises_only_bind; [by apply raises_only_call|exact Hk]. Qed.

Lemma get_attached_skus_def_hint context :
  raises_only carries_hint (__call__ (get_attached_skus_def (X:=X)) context).
Proof.
  apply handle_rhsm_exceptions_hint, runner_call_then.
  intros r. apply raises_only_ret.
Qed.

Lemma get_enabled_repo_ids_def_hint context :
  raises_only carries_hint (__call__ (get_enabled_repo_ids_def (X:=X)) context).
Proof.
  apply handle_rhsm_exceptions_hint, runner_call_then.
  intros r. apply raises_only_ret.
Qed.

Lemma get_release_def_hint context :
  raises_only carries_hint (__call__ (get_release_def (X:=X)) context).
Proof.
  apply handle_rhsm_exceptions_hint, runner_call_then.
  intros r. apply raises_only_ret.
Qed.

Lemma unset_release_def_hint context :
  raises_only carries_hint (__call__ (unset_release_def (X:=X)) context).
Proof.
  apply handle_rhsm_exceptions_hint, runner_call_then.
  intros r. apply raises_only_ret.
Qed.

Lemma set_release_def_hint context release :
  raises_only carries_hint
    (__call__ (set_release_def (X:=X)) (context, release)).
Proof.
  apply handle_rhsm_exceptions_hint, runner_call_then.
  intros r. apply raises_only_ret.
Qed.

Lemma refresh_def_hint context :
  raises_only carries_hint (__call__ (refresh_def (X:=X)) context).
Proof.
  apply handle_rhsm_exceptions_hint, runner_call_then.
  intros r. apply raises_only_ret.
Qed.
End SubscriptionManagerBodies.

(** C4, as stated: every exception that comes out would be a terminal
    error with a hint among its details.  The terminal errors of
    [set_container_mode] and [get_available_repo_ids] have none, and a
    failure to start yum comes out of [get_available_repo_ids] as the
    [OSError] of the command runner. *)
Lemma terminal_error_hint_counterexample :
  (fst (__call__ (set_container_mode switch_off) (failing_context true) empty_world)
   = Raise (StopActorExecutionError
              "Cannot set the container mode for the subscription-manager." None)
   ∧ ¬ carries_hint (StopActorExecutionError
              "Cannot set the container mode for the subscription-manager." None))
  ∧ (fst (__call__ get_available_repo_ids (failing_context true, None) empty_world)
     = Raise (StopActorExecutionError
                "Unable to get list of available yum repositories."
                (Some (<[ "details" := "Command failed with exit code 1." ]>
                      {[ "stderr" := "error" ]})))
     ∧ ¬ carries_hint (StopActorExecutionError
                "Unable to get list of available yum repositories."
                (Some (<[ "details" := "Command failed with exit code 1." ]>
                      {[ "stderr" := "error" ]}))))
  ∧ (fst (__call__ get_available_repo_ids (broken_context true, None) empty_world)
     = Raise (OSError "No such file or directory")
     ∧ ¬ carries_hint (OSError "No such file or directory")).
Proof.
  split; [|split]; (split; [reflexivity|]).
  - intros (m & d & [=] & _).
  - intros (m & d & [= <- <-] & _ & v & Hv). vm_compute in Hv. discriminate Hv.
  - intros (m & d & [=] & _).
Qed.

(** C4, amended.  Every exception that comes out of the operations on
    subscription-manager ([get_attached_skus], [get_enabled_repo_ids],
    [get_release], [unset_release], [set_release], [refresh]), whether
    the tool cannot be started or exits with a non-zero status, is a
    terminal error with a message and a [hint] among its details.  When
    their command exits with a non-zero status,
    [get_available_repo_ids] and [set_container_mode] raise a terminal
    error with a message and without hint: the details of the former are
    [details] and [stderr], the latter has no details. *)
Theorem terminal_errors_carry_hint {X} (env : gmap string string)
    (context : IsolatedActions X) (release : string)
    (releasever : option string) (w : World X) :
  (raises_only carries_hint (__call__ (get_attached_skus env) context)
   ∧ raises_only carries_hint (__call__ (get_enabled_repo_ids env) context)
   ∧ raises_only carries_hint (__call__ (get_release env) context)
   ∧ raises_only carries_hint (__call__ (unset_release env) context)
   ∧ raises_only carries_hint (__call__ (set_release env) (context, release))
   ∧ raises_only carries_hint (__call__ (refresh env) context))
  ∧ (∀ str err x,
       ctx_call context (repoinfo_cmd releasever) (system w)
         = (NonZeroExit str err, x) →
       fst (__call__ get_available_repo_ids (context, releasever) w)
       = Raise (StopActorExecutionError
                  "Unable to get list of available yum repositories."
                  (Some (<[ "details" := str ]> {[ "stderr" := err ]}))))
  ∧ (∀ str err x,
       skip_rhsm env = false →
       is_isolated context = true →
       ctx_call context ["ln"; "-s"; "/etc/rhsm"; "/etc/rhsm-host"] (system w)
         = (NonZeroExit str err, x) →
       fst (__call__ (set_container_mode env) context w)
       = Raise (StopActorExecutionError
                  "Cannot set the container mode for the subscription-manager."
                  None)).
Proof.
  split; [|split].
  - repeat split.
    + apply raises_only_with_rhsm, get_attached_skus_def_hint.
    + apply raises_only_with_rhsm, get_enabled_repo_ids_def_hint.
    + apply raises_only_with_rhsm, get_release_def_hint.
    + apply raises_only_with_rhsm, raises_only_rhsm_retry, unset_release_def_hint.
    + apply raises_only_with_rhsm, raises_only_rhsm_retry, set_release_def_hint.
    + apply raises_only_with_rhsm, raises_only_rhsm_retry, refresh_def_hint.
  - intros str err x Hcall. simpl.
    unfold bind, try_except, call, bind, emit, on_system. simpl.
    by rewrite Hcall.
  - intros str err x Hskip Hiso Hcall.
    unfold set_container_mode, with_rhsm. rewrite Hskip. simpl.
    rewrite Hiso. simpl.
    unfold bind, try_except, call, bind, emit, on_system. simpl.
    by rewrite Hcall.
Qed.

Lemma terminal_errors_carry_hint_witness :
  carries_hint (StopActorExecutionError
    "Unable to execute subscription-manager executable: No such file or directory"
    (Some {[ "hint" :=
       "Please ensure subscription-manager is installed and executable." ]}))
  ∧ fst (__call__ (set_container_mode switch_off) (failing_context true) empty_world)
    = Raise (StopActorExecutionError
               "Cannot set the container mode for the subscription-manager." None).
Proof.
  split.
  - destruct (terminal_errors_carry_hint switch_off (broken_context false)
                "8.2" None empty_world) as ((_ & _ & Hr & _) & _).
    apply (Hr empty_world). reflexivity.
  - destruct (terminal_errors_carry_hint switch_off (failing_context true)
                "8.2" None empty_world) as (_ & _ & Hc).
    apply (Hc "Command failed with exit code 1." "error" ()); reflexivity.
Defined.

(** ** Parsing the repository blocks *)

Section Parsing.
Context {X : Type}.
Implicit Types (w : World X) (block : string).

Lemma parse_repo_params_missing block field w :
  missing_field block = Some field →
  _parse_repo_params block w = (Raise (parse_failure field block), w).
Proof.
  unfold missing_field, _parse_repo_params, _get_repo_param, try_except, bind.
  destruct (search _RE_PARAM_REPO_ID block) as [m1|]; simpl.
  - destruct (search _RE_PARAM_REPO_FILENAME block) as [m2|]; simpl; [done|].
    intros [= <-]. reflexivity.
  - intros [= <-]. reflexivity.
Qed.

Lemma parse_repo_params_complete block w :
  missing_field block = None →
  ∃ repo, _parse_repo_params block w = (Return repo, w).
Proof.
  unfold missing_field, _parse_repo_params, _get_repo_param, try_except, bind.
  destruct (search _RE_PARAM_REPO_ID block) as [m1|]; simpl; [|done].
  destruct (search _RE_PARAM_REPO_FILENAME block) as [m2|]; simpl; [|done].
  intros _. by eexists.
Qed.

(** Listing the items stops with the error of the first block that
    has a field missing. *)
Lemma list_of_malformed (blocks : list string) block field :
  block ∈ blocks →
  missing_field block = Some field →
  ∃ block' field',
    block' ∈ blocks ∧ missing_field block' = Some field'
    ∧ ∀ w, list_of (_parse_repo_params <$> blocks) w
           = (Raise (parse_failure field' block'), w).
Proof.
  intros Hin Hmiss. induction blocks as [|b blocks IH]; [by inversion Hin|].
  destruct (missing_field b) as [fb|] eqn:Eb.
  - exists b, fb. split; [left|]. split; [done|]. intros w.
    cbn [fmap list_fmap list_of]. unfold bind.
    by rewrite (parse_repo_params_missing b fb w Eb).
  - destruct IH as (b' & f' & Hin' & Hm' & Hl).
    { inversion Hin; subst; [congruence|done]. }
    exists b', f'. split; [by right|]. split; [done|]. intros w.
    cbn [fmap list_fmap list_of]. unfold bind.
    destruct (parse_repo_params_complete b w Eb) as [repo ->].
    change (list_fmap _ _ ?g blocks) with (g <$> blocks). by rewrite Hl.
Qed.

(** Parsing leaves the world as it is. *)
Lemma parse_repo_params_world block w :
  snd (_parse_repo_params block w) = w.
Proof.
  destruct (missing_field block) as [field|] eqn:E.
  - by rewrite (parse_repo_params_missing _ field).
  - by destruct (parse_repo_params_complete block w E) as [repo ->].
Qed.

Lemma list_of_parse_world (blocks : list string) w :
  snd (list_of (_parse_repo_params <$> blocks) w) = w.
Proof.
  induction blocks as [|b blocks IH]; [reflexivity|].
  cbn [fmap list_fmap list_of]. unfold bind.
  pose proof (parse_repo_params_world b w) as Hb.
  destruct (_parse_repo_params b w) as [[repo|e] w1]; simpl in Hb; subst w1;
    [|reflexivity].
  change (list_fmap _ _ ?g blocks) with (g <$> blocks).
  destruct (list_of _ w) as [[l|e] w1]; simpl in *; by subst.
Qed.
End Parsing.

Section AvailableRepos.
Context {X : Type}.
Implicit Types (w : World X) (context : IsolatedActions X).

(** [get_available_repo_ids] when yum exits with status 0. *)
Lemma get_available_repo_ids_run context releasever w r x :
  ctx_call context (repoinfo_cmd releasever) (system w) = (Exit0 r, x) →
  __call__ get_available_repo_ids (context, releasever) w =
  match list_of (_get_repos (stdout r))
          (record (duplicate_events (findall1 _RE_DUPLICATE (stderr r)))
             (MkWorld (environ w) x
                (trace w ++ [Call (repoinfo_cmd releasever)]))) with
  | (Return repos, w') =>
      (Return (VList (rhsm_repoids repos)),
       record [available_message (rhsm_repoids repos)] w')
  | (Raise e, w') => (Raise e, w')
  end.
Proof.
  intros Hcall. cbn [__call__ get_available_repo_ids].
  unfold bind at 1. unfold try_except, call. unfold bind at 1.
  unfold emit, on_system. cbn [system environ trace]. rewrite Hcall.
  unfold bind at 1. rewrite inhibit_on_duplicate_repos_run.
  unfold bind at 1.
  destruct (list_of _ _) as [[repos|e] w']; [|reflexivity].
  fold (rhsm_repoids repos). unfold available_message, listing, bind.
  destruct (rhsm_repoids repos); reflexivity.
Qed.
End AvailableRepos.

(** C5.  A block matched by the block pattern from which the [Repo-id]
    or the [Repo-filename] field cannot be extracted makes
    [_parse_repo_params] raise a terminal error whose details hold the
    name of the missing field and the text of the block; listing the
    items of [_get_repos] then raises such an error instead of returning
    a list, and so does [get_available_repo_ids] once yum has exited with
    status 0: no block is dropped or completed with a default. *)
Theorem malformed_block_raises {X} (repos_stdout_raw block field : string)
    (w : World X) :
  block ∈ findall0 _RE_REPO_BLOCK repos_stdout_raw →
  missing_field block = Some field →
  _parse_repo_params block w = (Raise (parse_failure field block), w)
  ∧ (∃ block' field',
       block' ∈ findall0 _RE_REPO_BLOCK repos_stdout_raw
       ∧ missing_field block' = Some field'
       ∧ list_of (_get_repos repos_stdout_raw) w
         = (Raise (parse_failure field' block'), w)
       ∧ ∀ context releasever err x,
           ctx_call context (repoinfo_cmd releasever) (system w)
             = (Exit0 (MkCallResult repos_stdout_raw err), x) →
           fst (__call__ get_available_repo_ids (context, releasever) w)
           = Raise (parse_failure field' block')).
Proof.
  intros Hin Hmiss. split; [by apply parse_repo_params_missing|].
  destruct (list_of_malformed (X:=X) _ block field Hin Hmiss)
    as (b' & f' & Hin' & Hm' & Hl).
  exists b', f'. split; [done|]. split; [done|]. split; [apply Hl|].
  intros context releasever err x Hcall.
  rewrite (get_available_repo_ids_run _ _ _ _ _ Hcall).
  cbn [stdout]. unfold _get_repos. by rewrite Hl.
Qed.

Lemma malformed_block_raises_witness :
  let block := "Repo-id: epel" +:+ nl +:+ "Repo-filename: /etc/yum.repos.d/epel.repo" +:+ nl in
  _parse_repo_params block empty_world
  = (Raise (parse_failure "Repo-id" block), empty_world).
Proof.
  intros block.
  apply (malformed_block_raises
           ("junk" +:+ nl +:+ block +:+ "Repo-id : x") block "Repo-id" empty_world).
  - vm_compute. left.
  - reflexivity.
Defined.

(** ** Switching the certificate *)

(** C6, as stated: every call would attempt the two removals.  With the
    switch on at import the call does nothing. *)
Lemma switch_certificate_skip_counterexample :
  ¬ (∀ (env : gmap string string) (context : IsolatedActions unit)
       (c1 c2 cert_path : string) (w : World unit),
       filter (λ ev, is_removal ev = true)
         (trace (snd (__call__ (switch_certificate (λ _ _, true) env)
                        (context, snapshot [c1; c2], cert_path) w)))
       = filter (λ ev, is_removal ev = true) (trace w) ++ [Remove c1; Remove c2]).
Proof.
  intros H.
  specialize (H switch_on (quiet_context false "" "")
                "/etc/pki/product/69.pem" "/etc/pki/product-default/69.pem"
                "/usr/share/leapp/479.pem" empty_world).
  vm_compute in H. discriminate H.
Qed.

Section SwitchCertificate.
Context {X : Type}.
Variable os_path_isdir : string → X → bool.
Implicit Types (context : IsolatedActions X) (w : World X).

(** One removal attempt always returns. *)
Lemma removal_attempt context existing w :
  try_except (remove context existing) (λ e,
    match e with
    | OSError _ =>
        Some (logger WARNING "Failed to remove existing certificate: %s"
                [AStr existing])
    | _ => None
    end) w
  = (Return (),
     record (removal_events existing (fst (ctx_remove context existing (system w))))
       (MkWorld (environ w) (snd (ctx_remove context existing (system w)))
          (trace w))).
Proof.
  unfold try_except, remove, bind, emit, on_system, record, removal_events.
  cbn [system environ trace].
  destruct (ctx_remove context existing (system w)) as [[s|] x];
    cbn [fst snd]; unfold logger, emit; cbn [system environ trace].
  - by rewrite <- app_assoc.
  - reflexivity.
Qed.

(** The copy loop makes the copies of [copies_made], and returns if
    none of them fails. *)
Lemma copy_loop context cert_path w :
  trace (snd (for_each ["/etc/pki/product"; "/etc/pki/product-default"]
                (λ path,
                   is_dir <- isdir os_path_isdir (full_path context path) ;;
                   if is_dir
                   then copy_to context cert_path
                          (path_join path (basename cert_path))
                   else ret ()) w))
  = trace w ++ copies_made os_path_isdir context cert_path (system w)
  ∧ ((∀ src dst x, fst (ctx_copy_to context src dst x) = None) →
     fst (for_each ["/etc/pki/product"; "/etc/pki/product-default"]
            (λ path,
               is_dir <- isdir os_path_isdir (full_path context path) ;;
               if is_dir
               then copy_to context cert_path
                      (path_join path (basename cert_path))
               else ret ()) w) = Return ()).
Proof.
  cbn [for_each]. unfold copies_made.
  unfold bind, isdir, copy_to, bind, emit, on_system, ret.
  cbn [system environ trace].
  destruct (os_path_isdir _ (system w)); cbn [system environ trace snd fst].
  - destruct (ctx_copy_to context cert_path _ (system w)) as [[e|] x1] eqn:E1;
      cbn [system environ trace snd fst].
    + split; [done|]. intros H.
      specialize (H cert_path
        (path_join "/etc/pki/product" (basename cert_path)) (system w)).
      rewrite E1 in H. done.
    + destruct (os_path_isdir _ x1); cbn [system environ trace snd fst];
        [|done].
      destruct (ctx_copy_to context cert_path _ x1) as [[e|] x2] eqn:E2;
        cbn [system environ trace snd fst];
        (split; [by rewrite <- app_assoc|]); [|done].
      intros H. specialize (H cert_path
        (path_join "/etc/pki/product-default" (basename cert_path)) x1).
      rewrite E2 in H. done.
  - destruct (os_path_isdir _ (system w)); cbn [system environ trace snd fst].
    + destruct (ctx_copy_to context cert_path _ (system w)) as [[e|] x1] eqn:E1;
        cbn [system environ trace snd fst]; (split; [done|]); [|done].
      intros H. specialize (H cert_path
        (path_join "/etc/pki/product-default" (basename cert_path)) (system w)).
      rewrite E1 in H. done.
    + split; [by rewrite app_nil_r|done].
Qed.

Lemma copies_made_sublist context cert_path x :
  sublist (copies_made os_path_isdir context cert_path x)
          (certificate_copies cert_path).
Proof.
  unfold copies_made, certificate_copies.
  destruct (os_path_isdir _ x).
  - destruct (ctx_copy_to _ _ _ x) as [[e|] x1].
    + apply sublist_skip, sublist_nil_l.
    + destruct (os_path_isdir _ x1); [done|].
      apply sublist_skip, sublist_nil_l.
  - destruct (os_path_isdir _ x); [|apply sublist_nil_l].
    apply sublist_cons, sublist_skip, sublist_nil_l.
Qed.

(** The body of [switch_certificate] on a snapshot of two paths:
    the two removal attempts, then the copy loop. *)
Lemma switch_certificate_def_run context rhsm_info c1 c2 cert_path w :
  existing_product_certificates rhsm_info = [c1; c2] →
  let r1 := ctx_remove context c1 (system w) in
  let r2 := ctx_remove context c2 (snd r1) in
  __call__ (switch_certificate_def os_path_isdir)
    (context, rhsm_info, cert_path) w
  = (for_each ["/etc/pki/product"; "/etc/pki/product-default"]
       (λ path,
          is_dir <- isdir os_path_isdir (full_path context path) ;;
          if is_dir
          then copy_to context cert_path (path_join path (basename cert_path))
          else ret ()) ;;
     ret VNone)
      (MkWorld (environ w) (snd r2)
         (trace w ++ removal_events c1 (fst r1) ++ removal_events c2 (fst r2))).
Proof.
  intros Hcerts r1 r2.
  cbn [__call__ switch_certificate_def]. rewrite Hcerts.
  cbn [for_each]. unfold bind at 1. unfold bind at 1.
  rewrite removal_attempt. unfold bind at 1. unfold bind at 1.
  rewrite removal_attempt. cbn [system environ trace record].
  fold r1. fold r2. unfold ret at 1, record.
  cbn [system environ trace]. by rewrite <- app_assoc.
Qed.
End SwitchCertificate.


(** C6, amended.  Outside skip mode (switch not "1" at import), a call
    with a snapshot of two certificate paths attempts the two removals
    in the order of the list, each followed by a warning when it failed
    and by nothing else, and only then copies: one copy per directory
    that exists when its turn comes, in the order of the two
    directories, so at most two; no copy comes before the second
    removal attempt.  The failure of a removal is not fatal: if no copy
    fails the call returns. *)
Theorem switch_certificate_outside_skip {X} (os_path_isdir : string → X → bool)
    (env : gmap string string) (context : IsolatedActions X)
    (rhsm_info : RHSMInfo) (c1 c2 cert_path : string) (w : World X) :
  skip_rhsm env = false →
  existing_product_certificates rhsm_info = [c1; c2] →
  let run := __call__ (switch_certificate os_path_isdir env)
               (context, rhsm_info, cert_path) w in
  let r1 := ctx_remove context c1 (system w) in
  let r2 := ctx_remove context c2 (snd r1) in
  let removing := removal_events c1 (fst r1) ++ removal_events c2 (fst r2) in
  let copying := copies_made os_path_isdir context cert_path (snd r2) in
  trace (snd run) = trace w ++ removing ++ copying
  ∧ filter (λ ev, is_removal ev = true) removing = [Remove c1; Remove c2]
  ∧ Forall (λ ev, is_copy ev = false) removing
  ∧ Forall (λ ev, is_removal ev = false) copying
  ∧ sublist copying (certificate_copies cert_path)
  ∧ length copying ≤ 2
  ∧ ((∀ src dst x, fst (ctx_copy_to context src dst x) = None) →
     fst run = Return VNone).
Proof.
  intros Hskip Hcerts run r1 r2 removing copying.
  subst run. unfold switch_certificate, with_rhsm. rewrite Hskip.
  rewrite (switch_certificate_def_run os_path_isdir context rhsm_info c1 c2
             cert_path w Hcerts).
  fold r1. fold r2. fold removing.
  set (w2 := MkWorld (environ w) (snd r2) (trace w ++ removing)).
  destruct (copy_loop os_path_isdir context cert_path w2) as [Htrace Hret].
  pose proof (copies_made_sublist os_path_isdir context cert_path (snd r2))
    as Hsub.
  cbn [system w2] in Htrace. fold copying in Htrace, Hsub.
  split; [|split; [|split; [|split; [|split; [|split]]]]].
  - unfold bind.
    destruct (for_each _ _ w2) as [[[]|e] w3]; unfold ret; cbn [snd] in *;
      rewrite Htrace; unfold w2; cbn [trace]; by rewrite <- app_assoc.
  - unfold removing, removal_events.
    destruct (fst r1), (fst r2); reflexivity.
  - unfold removing, removal_events.
    destruct (fst r1), (fst r2); repeat constructor.
  - apply Forall_forall. intros ev Hev.
    apply (elem_of_sublist _ _ _ Hev) in Hsub.
    unfold certificate_copies in Hsub.
    apply elem_of_cons in Hsub as [->|Hsub]; [done|].
    apply list_elem_of_singleton in Hsub as ->. done.
  - exact Hsub.
  - apply sublist_length in Hsub. exact Hsub.
  - intros Hcopy. specialize (Hret Hcopy). unfold bind.
    destruct (for_each _ _ w2) as [[[]|e] w3]; cbn [fst] in *; done.
Qed.

Lemma switch_certificate_outside_skip_witness :
  fst (__call__ (switch_certificate (λ _ _, true) switch_off)
         (failing_context false,
          snapshot ["/etc/pki/product/69.pem"; "/etc/pki/product-default/69.pem"],
          "/usr/share/leapp/479.pem") empty_world)
  = Return VNone
  ∧ filter (λ ev, is_removal ev = true)
      (removal_events "/etc/pki/product/69.pem" (Some "No such file or directory")
       ++ removal_events "/etc/pki/product-default/69.pem"
            (Some "No such file or directory"))
    = [Remove "/etc/pki/product/69.pem"; Remove "/etc/pki/product-default/69.pem"].
Proof.
  destruct (switch_certificate_outside_skip (λ _ _, true) switch_off
              (failing_context false)
              (snapshot ["/etc/pki/product/69.pem";
                         "/etc/pki/product-default/69.pem"])
              "/etc/pki/product/69.pem" "/etc/pki/product-default/69.pem"
              "/usr/share/leapp/479.pem" empty_world
              eq_refl eq_refl) as (_ & Hrem & _ & _ & _ & _ & Hret).
  split; [|exact Hrem].
  apply Hret. intros src dst x. reflexivity.
Defined.

(** ** Container mode *)

(** C7, as stated: every call on a host root would log an error, and
    every call on an isolated root whose command fails would raise.  With
    the switch on at import the call does neither. *)
Lemma set_container_mode_skip_counterexample :
  ¬ (∀ (env : gmap string string) (context : IsolatedActions unit)
       (w : World unit),
       is_isolated context = false →
       ∃ msg, trace (snd (__call__ (set_container_mode env) context w))
              = trace w ++ [Log ERROR msg []])
  ∧ ¬ (∀ (env : gmap string string) (context : IsolatedActions unit)
         (w : World unit) str err x,
         is_isolated context = true →
         ctx_call context ["ln"; "-s"; "/etc/rhsm"; "/etc/rhsm-host"] (system w)
           = (NonZeroExit str err, x) →
         ∃ m d, fst (__call__ (set_container_mode env) context w)
                = Raise (StopActorExecutionError m d)).
Proof.
  split.
  - intros H.
    destruct (H switch_on (quiet_context false "" "") empty_world eq_refl)
      as [msg Hmsg].
    vm_compute in Hmsg. discriminate Hmsg.
  - intros H.
    destruct (H switch_on (failing_context true) empty_world
                "Command failed with exit code 1." "error" () eq_refl eq_refl)
      as (m & d & Hr).
    vm_compute in Hr. discriminate Hr.
Qed.

(** C7, amended.  Outside skip mode (switch not "1" at import): on a
    host root the call logs an error and returns, with no command run
    and the system left as it is; on an isolated root where the command
    that creates the marker exits with a non-zero status, it raises a
    terminal error. *)
Theorem set_container_mode_outside_skip {X} (env : gmap string string)
    (context : IsolatedActions X) (w : World X) :
  skip_rhsm env = false →
  (is_isolated context = false →
   __call__ (set_container_mode env) context w
   = (Return VNone,
      record [Log ERROR
                ("Trying to set RHSM into the container mode"
                   +:+ "on host. Skipping the action.") []] w))
  ∧ (∀ str err x,
       is_isolated context = true →
       ctx_call context ["ln"; "-s"; "/etc/rhsm"; "/etc/rhsm-host"] (system w)
         = (NonZeroExit str err, x) →
       fst (__call__ (set_container_mode env) context w)
       = Raise (StopActorExecutionError
                  "Cannot set the container mode for the subscription-manager."
                  None)).
Proof.
  intros Hskip. unfold set_container_mode, with_rhsm. rewrite Hskip.
  cbn [__call__ set_container_mode_def]. split.
  - intros ->. reflexivity.
  - intros str err x -> Hcall. cbn [negb].
    unfold bind, try_except, call, bind, emit, on_system.
    cbn [system environ trace]. by rewrite Hcall.
Qed.

Lemma set_container_mode_outside_skip_witness :
  __call__ (set_container_mode switch_off) (quiet_context false "" "") empty_world
  = (Return VNone,
     record [Log ERROR
               "Trying to set RHSM into the container modeon host. Skipping the action."
               []] empty_world)
  ∧ fst (__call__ (set_container_mode switch_off) (failing_context true) empty_world)
    = Raise (StopActorExecutionError
               "Cannot set the container mode for the subscription-manager." None).
Proof.
  split.
  - apply (set_container_mode_outside_skip switch_off (quiet_context false "" "")
             empty_world); reflexivity.
  - destruct (set_container_mode_outside_skip switch_off (failing_context true)
                empty_world eq_refl) as [_ H].
    apply (H "Command failed with exit code 1." "error" ()); reflexivity.
Defined.

(** ** Scanning past text that cannot match *)

Lemma lit_no_prefix s prev t : String.prefix s t = false → lit s prev t = None.
Proof.
  intros Hp. destruct (lit s prev t) as [p|] eqn:E; [|reflexivity].
  rewrite (lit_prefix s prev t) in Hp; [done|by rewrite E].
Qed.

Lemma lit_none_append a b prev t :
  lit a prev t = None → lit (a +:+ b) prev t = None.
Proof.
  revert prev t. induction a as [|c a IH]; intros prev t; [done|].
  rewrite append_cons. simpl. destruct t as [|d t]; [done|].
  destruct (Ascii.eqb c d); [apply IH|done].
Qed.

Lemma free_of_app lit a b tail :
  free_of lit (a +:+ b) tail = free_of lit a (b +:+ tail) && free_of lit b tail.
Proof.
  induction a as [|c a IH]; [reflexivity|].
  rewrite append_cons. cbn [free_of]. rewrite IH.
  rewrite <- append_cons, append_assoc. by rewrite andb_assoc.
Qed.

(** Unfolding [rmatch] one construct at a time. *)
Lemma rmatch_seq r1 r2 st k :
  rmatch (r1 ⊙ r2) st k = rmatch r1 st (λ st', rmatch r2 st' k).
Proof. reflexivity. Qed.

Lemma rmatch_lit_append s prev pos t caps k :
  rmatch (Lit s) (MState prev pos (s +:+ t) caps) k
  = k (MState (last_char prev s) (pos + String.length s) t caps).
Proof. cbn [rmatch m_prev m_pos m_rest m_caps]. by rewrite lit_append. Qed.

Lemma rmatch_star cs g prev pos rest caps k :
  rmatch (Star cs g) (MState prev pos rest caps) k
  = rep cs g 0 prev pos rest caps k.
Proof. reflexivity. Qed.

(** A lazy repetition followed by a literal goes on to the first
    occurrence of the literal. *)
Lemma rep_lazy_skip cs l r prev pos s t caps k :
  all_chars cs s = true →
  free_of l s t = true →
  rep cs Lazy 0 prev pos (s +:+ t) caps (λ st, rmatch (Lit l ⊙ r) st k)
  = rep cs Lazy 0 (last_char prev s) (pos + String.length s) t caps
      (λ st, rmatch (Lit l ⊙ r) st k).
Proof.
  revert prev pos. induction s as [|c s IH]; intros prev pos Hall Hfree.
  - change ("" +:+ t) with t. simpl. by rewrite Nat.add_0_r.
  - cbn [free_of all_chars] in *.
    apply andb_prop in Hall as [Hc Hall].
    apply andb_prop in Hfree as [Hp Hfree].
    apply negb_true_iff in Hp.
    rewrite append_cons in *. cbn [rep rmatch m_prev m_rest].
    rewrite (lit_no_prefix l prev _ Hp), Hc. cbn [Nat.pred].
    rewrite IH by done. cbn [last_char String.length].
    by rewrite Nat.add_succ_r.
Qed.

(** [search] goes on to the first place where a pattern that starts a
    line with a literal can match. *)
Lemma search_from_skip l l' r prev s t :
  free_of l s t = true →
  search_from (Bol ⊙ Lit (l +:+ l') ⊙ r) prev (s +:+ t)
  = search_from (Bol ⊙ Lit (l +:+ l') ⊙ r) (last_char prev s) t.
Proof.
  revert prev. induction s as [|c s IH]; intros prev Hfree; [reflexivity|].
  cbn [free_of] in Hfree. apply andb_prop in Hfree as [Hp Hfree].
  apply negb_true_iff in Hp. rewrite append_cons in *.
  cbn [search_from last_char].
  assert (match_at (Bol ⊙ Lit (l +:+ l') ⊙ r) prev (String c (s +:+ t)) = None)
    as ->.
  { unfold match_at. cbn [rmatch m_prev m_rest].
    destruct (at_bol _); [|reflexivity].
    by rewrite (lit_none_append l l' prev _ (lit_no_prefix l prev _ Hp)). }
  by apply IH.
Qed.

Lemma substring_all (n : nat) (s : string) :
  n = String.length s → String.substring 0 n s = s.
Proof.
  intros ->. induction s as [|c s IH]; [reflexivity|]. simpl. by rewrite IH.
Qed.

Lemma all_chars_any s : all_chars any s = true.
Proof. induction s as [|c s IH]; [reflexivity|]. simpl. exact IH. Qed.


(** ** The block of the scenario *)

Section Scenario.
Variable mid : string.
Hypothesis Hmid : other_fields mid.

Lemma scenario_block :
  match_at _RE_REPO_BLOCK None (scenario_stdout mid)
  = Some (Match (scenario_stdout mid) ∅).
Proof.
  destruct Hmid as [_ Hfree].
  unfold match_at, _RE_REPO_BLOCK, scenario_stdout.
  set (rest1 := "   : rhel-7-server-rpms/x86_64" +:+ nl).
  change (first_line +:+ mid +:+ last_line)
    with ("Repo-id" +:+ rest1 +:+ mid +:+ last_line).
  rewrite rmatch_seq, rmatch_lit_append, rmatch_seq, rmatch_star.
  rewrite <- (append_assoc rest1 mid last_line).
  rewrite rep_lazy_skip; [|apply all_chars_any|].
  2:{ rewrite free_of_app, Hfree, andb_true_r. reflexivity. }
  assert (∀ prev pos caps,
    rep any Lazy 0 prev pos last_line caps
      (λ st, rmatch (Lit "Repo-filename" ⊙ Star any Lazy ⊙ Lit nl) st Some)
    = Some (MState (Some nl_char) (pos + 44) "" caps)) as ->
    by (intros; cbv -[Nat.add]; do 2 f_equal; lia).
  cbn [m_pos m_caps]. do 2 f_equal.
  apply substring_all. rewrite !length_append. simpl. lia.
Qed.

Lemma scenario_blocks :
  findall0 _RE_REPO_BLOCK (scenario_stdout mid) = [scenario_stdout mid].
Proof.
  unfold findall0, finditer.
  assert (scenario_stdout mid
          = String "R" ("epo-id   : rhel-7-server-rpms/x86_64" +:+ nl
                          +:+ mid +:+ last_line)) as Hs by reflexivity.
  rewrite Hs at 1. erewrite finditer_from_hit; [|rewrite <- Hs; apply scenario_block].
  cbn [group0 fmap list_fmap]. f_equal.
  rewrite Hs at 1. cbn [String.length Nat.pred].
  rewrite <- (append_nil_r (_ +:+ _ +:+ mid +:+ last_line)) at 2.
  rewrite finditer_from_skip_all. reflexivity.
Qed.

Lemma scenario_repo_id :
  (λ m, group m 1) <$> search _RE_PARAM_REPO_ID (scenario_stdout mid)
  = Some (Some "rhel-7-server-rpms").
Proof. unfold scenario_stdout. vm_compute. reflexivity. Qed.

Lemma scenario_repo_filename :
  (λ m, group m 1) <$> search _RE_PARAM_REPO_FILENAME (scenario_stdout mid)
  = Some (Some "/etc/yum.repos.d/redhat.repo").
Proof.
  destruct Hmid as [Hlines Hfree].
  unfold search, scenario_stdout, _RE_PARAM_REPO_FILENAME.
  rewrite <- append_assoc.
  change "Repo-filename:" with ("Repo-filename" +:+ ":").
  rewrite search_from_skip.
  - rewrite last_char_append.
    change (last_char None first_line) with (Some nl_char). rewrite Hlines.
    vm_compute. reflexivity.
  - rewrite free_of_app, Hfree, andb_true_r. vm_compute. reflexivity.
Qed.

Lemma scenario_parse {X} (w : World X) :
  _parse_repo_params (scenario_stdout mid) w
  = (Return (MkRepository "rhel-7-server-rpms" "/etc/yum.repos.d/redhat.repo"), w).
Proof.
  pose proof scenario_repo_id as Hid.
  pose proof scenario_repo_filename as Hfile.
  unfold _parse_repo_params, _get_repo_param, try_except, bind.
  destruct (search _RE_PARAM_REPO_ID _) as [m1|]; [|done].
  destruct (search _RE_PARAM_REPO_FILENAME _) as [m2|]; [|done].
  simpl in Hid, Hfile. injection Hid as ->. injection Hfile as ->.
  reflexivity.
Qed.
End Scenario.

(** ** The scenarios *)

(** C8.  Take the output of [yum repoinfo] made of one block: the line
    [Repo-id   : rhel-7-server-rpms/x86_64], any lines for the other
    fields, and the line [Repo-filename: /etc/yum.repos.d/redhat.repo].
    Parsing yields exactly one repository, of id [rhel-7-server-rpms]
    (without the [/x86_64]) and of file [/etc/yum.repos.d/redhat.repo],
    and [get_available_repo_ids], called without release version on a
    context where yum prints this output, returns the list of that one
    id. *)
Theorem scenario_one_rhsm_repo {X} (context : IsolatedActions X)
    (mid err : string) (w : World X) (x : X) :
  other_fields mid →
  ctx_call context ["yum"; "repoinfo"] (system w)
    = (Exit0 (MkCallResult (scenario_stdout mid) err), x) →
  list_of (_get_repos (scenario_stdout mid)) w
    = (Return [MkRepository "rhel-7-server-rpms" "/etc/yum.repos.d/redhat.repo"], w)
  ∧ fst (__call__ get_available_repo_ids (context, None) w)
    = Return (VList ["rhel-7-server-rpms"]).
Proof.
  intros Hmid Hcall.
  assert (∀ w' : World X, list_of (_get_repos (scenario_stdout mid)) w'
    = (Return [MkRepository "rhel-7-server-rpms" "/etc/yum.repos.d/redhat.repo"], w'))
    as Hparse.
  { intros w'. unfold _get_repos. rewrite scenario_blocks by done.
    cbn [fmap list_fmap list_of]. unfold bind.
    by rewrite scenario_parse. }
  split; [apply Hparse|].
  rewrite (get_available_repo_ids_run context None w _ x Hcall).
  cbn [stdout]. rewrite Hparse. reflexivity.
Qed.

Lemma scenario_one_rhsm_repo_witness :
  fst (__call__ get_available_repo_ids
         (quiet_context false (scenario_stdout usual_fields) "", None)
         empty_world)
  = Return (VList ["rhel-7-server-rpms"])
  ∧ fst (__call__ get_available_repo_ids
           (quiet_context false (scenario_stdout ("..." +:+ nl)) "", None)
           empty_world)
    = Return (VList ["rhel-7-server-rpms"]).
Proof.
  split.
  - apply (scenario_one_rhsm_repo
             (quiet_context false (scenario_stdout usual_fields) "")
             usual_fields "" empty_world ()).
    + split; vm_compute; reflexivity.
    + reflexivity.
  - apply (scenario_one_rhsm_repo
             (quiet_context false (scenario_stdout ("..." +:+ nl)) "")
             ("..." +:+ nl) "" empty_world ()).
    + split; vm_compute; reflexivity.
    + reflexivity.
Defined.

(** A text without [Release:] has no match of the release pattern. *)
Lemma no_release_no_match (s : string) :
  occurs "Release:" s = false → findall1 _RE_RELEASE s = [].
Proof.
  intros H. unfold findall1, finditer, _RE_RELEASE.
  by rewrite finditer_from_no_occurrence.
Qed.

(** C9.  Outside skip mode, when the release query exits with status 0
    and its output does not hold [Release:], or more generally has no
    match of the release pattern, [get_release] returns the empty
    string: it does not raise, and does not return [None]. *)
Theorem get_release_unset {X} (env : gmap string string)
    (context : IsolatedActions X) (w : World X) (r : CallResult) (x : X) :
  skip_rhsm env = false →
  ctx_call context ["subscription-manager"; "release"] (system w) = (Exit0 r, x) →
  occurs "Release:" (stdout r) = false ∨ findall1 _RE_RELEASE (stdout r) = [] →
  fst (__call__ (get_release env) context w) = Return (VStr "").
Proof.
  intros Hskip Hcall Hnone.
  assert (findall1 _RE_RELEASE (stdout r) = []) as Hnone'
    by (destruct Hnone; [by apply no_release_no_match|done]).
  clear Hnone. rename Hnone' into Hnone.
  unfold get_release, with_rhsm. rewrite Hskip.
  cbn [__call__ get_release_def].
  unfold _handle_rhsm_exceptions, try_except, bind, call, bind, emit, on_system.
  cbn [system environ trace]. rewrite Hcall. unfold ret.
  by rewrite Hnone.
Qed.

Lemma get_release_unset_witness :
  fst (__call__ (get_release ∅)
         (quiet_context false ("Release not set" +:+ nl) "") empty_world)
  = Return (VStr "").
Proof.
  apply (get_release_unset ∅ (quiet_context false ("Release not set" +:+ nl) "")
           empty_world (MkCallResult ("Release not set" +:+ nl) "") ());
    [reflexivity|reflexivity|left; reflexivity].
Defined.

(** ** The environment and [get_available_repo_ids] *)

Section EnvBlind.
Context {X : Type}.










End EnvBlind.

(** * More properties *)

(** ** The retry wrapper, whatever the operation does *)

Section RetryBounds.
Context {X A : Type}.
Variables (max_attempts : Z) (sleep : option nat).
Variables (f : function X A) (args : A).

Lemma give_up_warning_system (g : function (X * nat) A) a (w : World (X * nat)) :
  system (snd (give_up_warning max_attempts g a w)) = system w.
Proof. reflexivity. Qed.

Lemma wrapper_loop_bounds a (w : World (X * nat)) :
  let w' := snd (wrapper_loop max_attempts sleep (counted f) args a w) in
  invocations w + 1 ≤ invocations w'
  ∧ invocations w' ≤ invocations w + Z.to_nat (Z.max 1 (max_attempts - a)).
Proof.
  remember (Z.to_nat (max_attempts - a)) as n eqn:Hn.
  revert a w Hn. induction (lt_wf n) as [n _ IH]. intros a w Hn w'.
  subst w'. rewrite wrapper_loop_step. unfold try_except.
  pose proof (counted_invocations f args w) as Hc.
  destruct (__call__ (counted f) args w) as [[v|e] w1]; cbn [snd] in *.
  { lia. }
  destruct e as [m d|s err|s|l]; cbn [snd]; try lia.
  destruct (decide _) as [Hle|Hgt].
  - unfold bind, give_up_warning, logger, emit, raise, invocations in *.
    cbn [snd system]. lia.
  - unfold bind.
    pose proof (retry_notice_returns max_attempts sleep (counted f) (a + 1) w1)
      as Hr.
    pose proof (retry_notice_system max_attempts sleep f (a + 1) w1) as Hs.
    destruct (retry_notice _ _ _ _ w1) as [r w2]. cbn [fst snd] in *. subst r.
    destruct (IH (Z.to_nat (max_attempts - (a + 1))) ltac:(lia) (a + 1)%Z w2
                eq_refl) as [Hlo Hhi].
    unfold invocations in *. rewrite Hs in *. lia.
Qed.
End RetryBounds.

(** X1.  Whatever the operation does and whatever [max_attempts] is
    (zero and negative values included), the wrapper invokes the
    operation at least once and at most [max 1 max_attempts] times. *)
Theorem rhsm_retry_bounds {X A} (max_attempts : Z) (sleep : option nat)
    (f : function X A) (args : A) (w : World (X * nat)) :
  let run := __call__ (_rhsm_retry max_attempts sleep (counted f)) args w in
  invocations w + 1 ≤ invocations (snd run)
  ∧ invocations (snd run) ≤ invocations w + Z.to_nat (Z.max 1 max_attempts).
Proof.
  intros run. subst run. cbn [__call__ _rhsm_retry]. unfold wrapper.
  destruct (wrapper_loop_bounds max_attempts sleep f args 0 w) as [Hlo Hhi].
  split; [exact Hlo|]. rewrite Z.sub_0_r in Hhi. exact Hhi.
Qed.

Section RetryStops.
Context {X A : Type}.
Variables (max_attempts : Z) (sleep : option nat).
Variables (f : function X A) (args : A).

Lemma wrapper_loop_other a w :
  ¬ fails (__call__ f args w) →
  wrapper_loop max_attempts sleep f args a w = __call__ f args w.
Proof.
  intros Hnf. rewrite wrapper_loop_step. unfold try_except.
  destruct (__call__ f args w) as [[v|e] w1]; [reflexivity|].
  destruct e as [m d|s err|s|l]; try reflexivity.
  destruct Hnf. by eexists _, _.
Qed.
End RetryStops.

(** X2.  Only the terminal error is retried.  When the attempts before
    the [j]-th ended with the terminal error and the [j]-th ends
    otherwise, with a value or with any other exception, the wrapper
    ends as that invocation does: same outcome, same world, so no
    further invocation, no log and no pause. *)
Theorem rhsm_retry_other_outcome {X A} (max_attempts : Z) (sleep : option nat)
    (f : function X A) (args : A) (w : World X) (j : nat) :
  1 ≤ j →
  j = 1 ∨ (Z.of_nat j ≤ max_attempts)%Z →
  (∀ i, 1 ≤ i < j → fails (attempt max_attempts sleep f args i w)) →
  ¬ fails (attempt max_attempts sleep f args j w) →
  __call__ (_rhsm_retry max_attempts sleep f) args w
  = attempt max_attempts sleep f args j w.
Proof.
  intros Hj Hle Hfail Hother. cbn [__call__ _rhsm_retry].
  destruct (decide (j = 1)) as [->|Hne].
  - unfold wrapper. by apply wrapper_loop_other.
  - destruct Hle as [->|Hle]; [done|].
    rewrite (wrapper_after_failures max_attempts sleep f args (j - 1))
      by (try lia; intros i Hi; apply Hfail; lia).
    by apply wrapper_loop_other.
Qed.

(** An operation that raises [ValueError] on its second invocation. *)
Lemma rhsm_retry_other_outcome_witness :
  let op : function nat unit :=
    Def "op" (λ _ w,
      match system w with
      | O => (Raise (StopActorExecutionError "busy" None),
              MkWorld (environ w) 1 (trace w))
      | S _ => (Raise (ValueError ["bad"]), w)
      end) in
  fst (__call__ (_rhsm_retry 5 (Some 5) op) () (MkWorld ∅ 0 []))
  = Raise (ValueError ["bad"]).
Proof.
  intros op.
  rewrite (rhsm_retry_other_outcome 5 (Some 5) op () (MkWorld ∅ 0 []) 2).
  - reflexivity.
  - lia.
  - right. lia.
  - intros i Hi. replace i with 1 by lia. eexists _, _. reflexivity.
  - intros (m & d & H). discriminate H.
Defined.

(** ** The operations that are retried *)

Section RetriedCommand.
Context {X A : Type}.
Variables (max_attempts : Z) (pause : nat).
Variables (f : function X A) (args : A) (cmd : list string).

Lemma wrapper_loop_commands a w :
  runs_once f args cmd →
  let run := wrapper_loop max_attempts (Some (S pause)) f args a w in
  ∃ k evs,
    1 ≤ k ∧ (Z.of_nat k ≤ Z.max 1 (max_attempts - a))%Z
    ∧ trace (snd run) = trace w ++ evs
    ∧ steps evs = Call cmd :: reruns (k - 1) (S pause) cmd
    ∧ (fst run = Return VNone
       ∨ ((max_attempts ≤ a + Z.of_nat k)%Z
          ∧ ∃ e, fst run = Raise e ∧ carries_hint e)).
Proof.
  intros Hf.
  remember (Z.to_nat (max_attempts - a)) as n eqn:Hn.
  revert a w Hn. induction (lt_wf n) as [n _ IH]. intros a w Hn run.
  subst run. rewrite wrapper_loop_step. unfold try_except.
  destruct (Hf w) as (evs0 & Ht0 & Hs0 & Hr0).
  destruct (__call__ f args w) as [[v|e] w1]; cbn [fst snd] in *.
  { exists 1, evs0. repeat split; try lia; try done.
    left. destruct Hr0 as [Hr0|(e & [=] & _)]. exact Hr0. }
  destruct Hr0 as [[=]|(e' & [= <-] & He)].
  destruct He as (m & d & -> & Hm & Hd).
  destruct (decide _) as [Hle|Hgt].
  - exists 1, (evs0 ++ [Log WARNING
      "Attempt %d of %d to perform %s failed. Maximum number of retries has been reached."
      [AInt (a + 1); AInt max_attempts; AStr (__name__ f)]]).
    unfold bind, give_up_warning, logger, emit, raise. cbn [fst snd trace].
    split; [lia|]. split; [lia|]. split; [by rewrite Ht0, <- app_assoc|].
    unfold steps in *. rewrite !filter_app, Hs0.
    split; [done|]. right. split; [lia|].
    eexists. split; [reflexivity|]. by eexists _, _.
  - unfold bind, retry_notice, logger, time_sleep, bind, emit.
    cbn [fst snd trace environ system].
    set (w2 := MkWorld _ _ _).
    destruct (IH (Z.to_nat (max_attempts - (a + 1))) ltac:(lia) (a + 1)%Z w2
                eq_refl) as (k & evs & Hk1 & Hk2 & Ht & Hs & Hr).
    exists (S k), (evs0 ++ [Log INFO
      "Attempt %d of %d to perform %s failed - Retrying after %s seconds"
      [AInt (a + 1); AInt max_attempts; AStr (__name__ f);
       AStr (pretty (S pause))]; Sleep (S pause)] ++ evs).
    split; [lia|]. split; [lia|]. split.
    { rewrite Ht. unfold w2. cbn [trace]. rewrite Ht0.
      by rewrite <- !app_assoc. }
    unfold steps in *. rewrite !filter_app, Hs0, Hs.
    split.
    { cbn [Nat.sub]. rewrite Nat.sub_0_r. destruct k; [lia|].
      cbn [reruns Nat.sub]. by rewrite Nat.sub_0_r. }
    destruct Hr as [Hr|[Hle Hr]]; [by left|right].
    split; [lia|exact Hr].
Qed.
End RetriedCommand.

Section RetriedBodies.
Context {X : Type}.

(** The body the three retried operations share, up to the command. *)
Lemma command_body_runs_once {A} (f : function X A) (args : A)
    (context : IsolatedActions X) (cmd : list string) :
  __call__ f args
    = _handle_rhsm_exceptions None (call context cmd ;; ret VNone) →
  runs_once f args cmd.
Proof.
  intros Hf w. rewrite Hf.
  unfold _handle_rhsm_exceptions, try_except, bind, call, bind, emit, on_system.
  cbn [system environ trace].
  destruct (ctx_call context cmd (system w)) as [[r|s err|s] x];
    cbn [fst snd trace ret raise logger emit].
  - exists [Call cmd]. repeat split. by left.
  - exists [Call cmd]. repeat split. right.
    eexists. split; [reflexivity|]. eexists _, _. split; [reflexivity|].
    split; [done|]. rewrite lookup_insert_ne, lookup_insert_ne by done.
    rewrite lookup_singleton_eq. by eexists.
  - exists [Call cmd; Log ERROR "Failed to execute subscription-manager executable" []].
    unfold logger, emit, raise. cbn [fst snd trace].
    split; [by rewrite <- app_assoc|]. repeat split. right.
    eexists. split; [reflexivity|]. eexists _, _. split; [reflexivity|].
    split; [done|]. rewrite lookup_singleton_eq. by eexists.
Qed.

Lemma retried_five_times {A} (env : gmap string string) (f : function X A)
    (args : A) (cmd : list string) (w : World X) :
  skip_rhsm env = false →
  runs_once f args cmd →
  retried_at_most 5 5 cmd w
    (__call__ (with_rhsm env (_rhsm_retry _ATTEMPTS (Some _RETRY_SLEEP) f))
       args w).
Proof.
  intros Hskip Hf. unfold with_rhsm. rewrite Hskip.
  cbn [__call__ _rhsm_retry]. unfold wrapper.
  destruct (wrapper_loop_commands _ATTEMPTS 4 f args cmd 0 w Hf)
    as (k & evs & Hk1 & Hk2 & Ht & Hs & Hr).
  exists k, evs. unfold _ATTEMPTS in *.
  split; [lia|]. split; [exact Ht|]. split; [exact Hs|].
  destruct Hr as [Hr|[Hle Hr]]; [by left|right]. split; [lia|exact Hr].
Qed.
End RetriedBodies.

(** X3.  Outside skip mode, [unset_release], [set_release] and
    [refresh] run their command between one and five times and no
    other command; they pause five seconds between two consecutive
    runs and at no other time, so that commands and pauses alternate,
    from a first run to a last run; and they either return [None] or,
    after the fifth run, raise a terminal error with a hint. *)
Theorem retried_operations_run_at_most_five_times {X}
    (env : gmap string string) (context : IsolatedActions X)
    (release : string) (w : World X) :
  skip_rhsm env = false →
  retried_at_most 5 5 ["subscription-manager"; "release"; "--unset"] w
    (__call__ (unset_release env) context w)
  ∧ retried_at_most 5 5 ["subscription-manager"; "release"; "--set"; release] w
      (__call__ (set_release env) (context, release) w)
  ∧ retried_at_most 5 5 ["subscription-manager"; "refresh"] w
      (__call__ (refresh env) context w).
Proof.
  intros Hskip. repeat split.
  - apply retried_five_times; [done|].
    by apply (command_body_runs_once _ _ context).
  - apply retried_five_times; [done|].
    by apply (command_body_runs_once _ _ context).
  - apply retried_five_times; [done|].
    by apply (command_body_runs_once _ _ context).
Qed.

Lemma retried_operations_run_at_most_five_times_witness :
  retried_at_most 5 5 ["subscription-manager"; "refresh"] empty_world
    (__call__ (refresh switch_off) (failing_context false) empty_world)
  ∧ steps (trace (snd (__call__ (refresh switch_off) (failing_context false)
                         empty_world)))
    = [Call ["subscription-manager"; "refresh"]; Sleep 5;
       Call ["subscription-manager"; "refresh"]; Sleep 5;
       Call ["subscription-manager"; "refresh"]; Sleep 5;
       Call ["subscription-manager"; "refresh"]; Sleep 5;
       Call ["subscription-manager"; "refresh"]].
Proof.
  split; [|reflexivity].
  apply (retried_operations_run_at_most_five_times switch_off
           (failing_context false) "8.2" empty_world).
  reflexivity.
Defined.

(** ** Values listed by key *)

Section Keyed.
Variable key : string.
Hypothesis Hkey : String.prefix key "" = false.

Lemma finditer_from_skip_free r prev s t :
  free_of key s t = true →
  finditer_from (Lit key ⊙ r) 0 prev (s +:+ t)
  = finditer_from (Lit key ⊙ r) 0 (last_char prev s) t.
Proof.
  revert prev. induction s as [|c s IH]; intros prev Hfree; [reflexivity|].
  cbn [free_of] in Hfree. apply andb_prop in Hfree as [Hp Hfree].
  apply negb_true_iff in Hp. rewrite append_cons in *.
  rewrite finditer_from_miss by (by apply match_at_no_prefix).
  by apply IH.
Qed.

Lemma finditer_from_empty r prev :
  finditer_from (Lit key ⊙ r) 0 prev "" = [].
Proof. cbn [finditer_from]. by rewrite match_at_no_prefix. Qed.

(** The pattern matches at the key, and its group is the token that
    follows the white space. *)
Lemma match_at_key prev ws tok rest :
  all_chars space ws = true →
  is_token tok = true →
  starts_blank rest = true →
  match_at (key_pattern key) prev (key +:+ ws +:+ tok +:+ rest)
  = Some (Match (key +:+ ws +:+ tok) {[ 1 := tok ]}).
Proof.
  intros Hws Htok Hrest. unfold match_at, key_pattern.
  rewrite rmatch_seq, rmatch_lit_append, rmatch_seq, rmatch_star.
  erewrite rep_greedy_run; [ | exact Hws | lia | | ].
  3:{ cbn [rmatch m_prev m_pos m_rest m_caps].
      erewrite rep_greedy_run;
        [reflexivity | by apply is_token_all | by apply is_token_length | | ].
      - destruct rest as [|c rest]; [done|]. cbn in Hrest.
        unfold not_space. by rewrite Hrest.
      - reflexivity. }
  2:{ destruct tok as [|c tok]; [done|]. rewrite append_cons.
      cbn in Htok. apply andb_prop in Htok as [Hc _].
      unfold not_space in Hc. by apply negb_true_iff in Hc. }
  cbn [m_pos m_rest m_caps]. unfold consumed. cbn [m_pos m_rest].
  do 2 f_equal.
  - replace (key +:+ ws +:+ tok +:+ rest) with ((key +:+ ws +:+ tok) +:+ rest)
      by (by rewrite !append_assoc).
    apply substring_append_eq. rewrite !length_append. lia.
  - rewrite substring_append_eq by lia. reflexivity.
Qed.

(** Scanning goes from one key to the end of its token. *)
Lemma finditer_from_key prev ws tok rest :
  all_chars space ws = true →
  is_token tok = true →
  starts_blank rest = true →
  finditer_from (key_pattern key) 0 prev (key +:+ ws +:+ tok +:+ rest)
  = Match (key +:+ ws +:+ tok) {[ 1 := tok ]}
    :: finditer_from (key_pattern key) 0
         (last_char prev (key +:+ ws +:+ tok)) rest.
Proof.
  intros Hws Htok Hrest.
  pose proof (match_at_key prev ws tok rest Hws Htok Hrest) as Hm.
  destruct key as [|c key'] eqn:Ek; [done|].
  rewrite append_cons in *.
  erewrite finditer_from_hit by exact Hm.
  f_equal. cbn [group0]. rewrite !append_cons.
  cbn [String.length Nat.pred last_char].
  replace (key' +:+ ws +:+ tok +:+ rest) with ((key' +:+ ws +:+ tok) +:+ rest)
    by (by rewrite !append_assoc).
  rewrite finditer_from_skip_all. reflexivity.
Qed.

Lemma finditer_keyed prev es :
  keyed_ok key es = true →
  (λ m, default "" (group m 1)) <$>
    finditer_from (key_pattern key) 0 prev (keyed_text key es)
  = values_of es.
Proof.
  revert prev. induction es as [|[[ws tok] other] es IH]; intros prev Hok.
  - cbn [keyed_text]. unfold key_pattern. by rewrite finditer_from_empty.
  - cbn [keyed_ok keyed_text] in *.
    apply andb_prop in Hok as [Hok Hes]. apply andb_prop in Hok as [Hok Hfree].
    apply andb_prop in Hok as [Hok Hblank]. apply andb_prop in Hok as [Hws Htok].
    rewrite finditer_from_key by done.
    unfold key_pattern in *. rewrite finditer_from_skip_free by done.
    cbn [fmap list_fmap]. rewrite IH by done.
    unfold values_of, group. cbn [fmap list_fmap groups fst snd].
    by rewrite lookup_singleton_eq.
Qed.
End Keyed.

Lemma findall1_keyed key lead es :
  String.prefix key "" = false →
  free_of key lead (keyed_text key es) = true →
  keyed_ok key es = true →
  findall1 (key_pattern key) (lead +:+ keyed_text key es) = values_of es.
Proof.
  intros Hkey Hlead Hok. unfold findall1, finditer.
  unfold key_pattern at 1. rewrite finditer_from_skip_free by done.
  by apply finditer_keyed.
Qed.

Lemma findall1_first key lead ws tok rest :
  String.prefix key "" = false →
  free_of key lead (key +:+ ws +:+ tok +:+ rest) = true →
  all_chars space ws = true →
  is_token tok = true →
  starts_blank rest = true →
  head (findall1 (key_pattern key) (lead +:+ key +:+ ws +:+ tok +:+ rest))
  = Some tok.
Proof.
  intros Hkey Hlead Hws Htok Hrest. unfold findall1, finditer.
  unfold key_pattern at 1. rewrite finditer_from_skip_free by done.
  fold (key_pattern key). rewrite finditer_from_key by done.
  cbn [fmap list_fmap head]. unfold group. cbn [groups].
  by rewrite lookup_singleton_eq.
Qed.

(** A query that exits with status 0: what the call returns and the
    world it leaves. *)
Lemma query_run {X} (context : IsolatedActions X) (cmd : list string)
    (k : CallResult → value) (w : World X) (r : CallResult) (x : X) :
  ctx_call context cmd (system w) = (Exit0 r, x) →
  _handle_rhsm_exceptions None (result <- call context cmd ;; ret (k result)) w
  = (Return (k r), MkWorld (environ w) x (trace w ++ [Call cmd])).
Proof.
  intros Hcall.
  unfold _handle_rhsm_exceptions, try_except, bind, call, bind, emit, on_system.
  cbn [system environ trace]. by rewrite Hcall.
Qed.

(** X4.  Outside skip mode, when [subscription-manager repos
    --list-enabled] exits with status 0 and prints entries that each
    give a repository id after [Repo ID:], [get_enabled_repo_ids] runs
    that one command and returns the ids in the order of the output,
    one per entry. *)
Theorem get_enabled_repo_ids_lists_ids {X} (env : gmap string string)
    (context : IsolatedActions X) (w : World X) (x : X)
    (lead err : string) (es : list (string * string * string)) :
  skip_rhsm env = false →
  free_of "Repo ID:" lead (keyed_text "Repo ID:" es) = true →
  keyed_ok "Repo ID:" es = true →
  ctx_call context ["subscription-manager"; "repos"; "--list-enabled"] (system w)
    = (Exit0 (MkCallResult (lead +:+ keyed_text "Repo ID:" es) err), x) →
  __call__ (get_enabled_repo_ids env) context w
  = (Return (VList (values_of es)),
     MkWorld (environ w) x
       (trace w ++ [Call ["subscription-manager"; "repos"; "--list-enabled"]])).
Proof.
  intros Hskip Hlead Hok Hcall.
  unfold get_enabled_repo_ids, with_rhsm. rewrite Hskip.
  cbn [__call__ get_enabled_repo_ids_def].
  rewrite (query_run context _ (λ r, VList (findall1 _RE_REPO_UID (stdout r)))
             w _ x Hcall).
  cbn [stdout]. change _RE_REPO_UID with (key_pattern "Repo ID:").
  by rewrite findall1_keyed.
Qed.

Lemma get_enabled_repo_ids_lists_ids_witness :
  let lead :=
    "+----------------------------------------------------------+" +:+ nl in
  let es :=
    [("   ", "rhel-8-for-x86_64-baseos-rpms",
      nl +:+ "Repo Name: Red Hat Enterprise Linux 8 - BaseOS" +:+ nl
         +:+ "Enabled:   1" +:+ nl +:+ nl);
     ("   ", "rhel-8-for-x86_64-appstream-rpms",
      nl +:+ "Repo Name: Red Hat Enterprise Linux 8 - AppStream" +:+ nl
         +:+ "Enabled:   1" +:+ nl)] in
  fst (__call__ (get_enabled_repo_ids switch_off)
         (quiet_context false (lead +:+ keyed_text "Repo ID:" es) "")
         empty_world)
  = Return (VList ["rhel-8-for-x86_64-baseos-rpms";
                   "rhel-8-for-x86_64-appstream-rpms"]).
Proof.
  intros lead es.
  apply (f_equal fst
           (get_enabled_repo_ids_lists_ids switch_off
              (quiet_context false (lead +:+ keyed_text "Repo ID:" es) "")
              empty_world () lead "" es
              eq_refl eq_refl eq_refl eq_refl)).
Defined.

(** X5.  Outside skip mode, when [subscription-manager list --consumed]
    exits with status 0 and prints entries that each give a SKU after
    [SKU:], [get_attached_skus] runs that one command and returns the
    SKUs in the order of the output, one per entry. *)
Theorem get_attached_skus_lists_skus {X} (env : gmap string string)
    (context : IsolatedActions X) (w : World X) (x : X)
    (lead err : string) (es : list (string * string * string)) :
  skip_rhsm env = false →
  free_of "SKU:" lead (keyed_text "SKU:" es) = true →
  keyed_ok "SKU:" es = true →
  ctx_call context ["subscription-manager"; "list"; "--consumed"] (system w)
    = (Exit0 (MkCallResult (lead +:+ keyed_text "SKU:" es) err), x) →
  __call__ (get_attached_skus env) context w
  = (Return (VList (values_of es)),
     MkWorld (environ w) x
       (trace w ++ [Call ["subscription-manager"; "list"; "--consumed"]])).
Proof.
  intros Hskip Hlead Hok Hcall.
  unfold get_attached_skus, with_rhsm. rewrite Hskip.
  cbn [__call__ get_attached_skus_def].
  rewrite (query_run context _ (λ r, VList (findall1 _RE_SKU_CONSUMED (stdout r)))
             w _ x Hcall).
  cbn [stdout]. change _RE_SKU_CONSUMED with (key_pattern "SKU:").
  by rewrite findall1_keyed.
Qed.

Lemma get_attached_skus_lists_skus_witness :
  let lead := "Subscription Name:   Red Hat Enterprise Linux Server" +:+ nl in
  let es :=
    [("                 ", "RH00003",
      nl +:+ "Contract:            12345678" +:+ nl)] in
  fst (__call__ (get_attached_skus switch_off)
         (quiet_context false (lead +:+ keyed_text "SKU:" es) "") empty_world)
  = Return (VList ["RH00003"]).
Proof.
  intros lead es.
  apply (f_equal fst
           (get_attached_skus_lists_skus switch_off
              (quiet_context false (lead +:+ keyed_text "SKU:" es) "")
              empty_world () lead "" es
              eq_refl eq_refl eq_refl eq_refl)).
Defined.

(** X6.  Outside skip mode, when the release query exits with status 0,
    [get_release] returns the first token that follows the first
    [Release:] of the output, whatever white space lies between them
    (line breaks included) and whatever comes after the token. *)
Theorem get_release_first_token {X} (env : gmap string string)
    (context : IsolatedActions X) (w : World X) (x : X)
    (lead ws tok rest err : string) :
  skip_rhsm env = false →
  free_of "Release:" lead ("Release:" +:+ ws +:+ tok +:+ rest) = true →
  all_chars space ws = true →
  is_token tok = true →
  starts_blank rest = true →
  ctx_call context ["subscription-manager"; "release"] (system w)
    = (Exit0 (MkCallResult (lead +:+ "Release:" +:+ ws +:+ tok +:+ rest) err), x) →
  fst (__call__ (get_release env) context w) = Return (VStr tok).
Proof.
  intros Hskip Hlead Hws Htok Hrest Hcall.
  unfold get_release, with_rhsm. rewrite Hskip.
  cbn [__call__ get_release_def].
  rewrite (query_run context _
             (λ r, VStr match findall1 _RE_RELEASE (stdout r) with
                        | r0 :: _ => r0
                        | [] => ""
                        end) w _ x Hcall).
  cbn [stdout fst]. change _RE_RELEASE with (key_pattern "Release:").
  pose proof (findall1_first "Release:" lead ws tok rest eq_refl Hlead Hws Htok
                Hrest) as Hhead.
  destruct (findall1 _ _) as [|r0 l]; [done|].
  cbn in Hhead. by injection Hhead as ->.
Qed.

Lemma get_release_first_token_witness :
  fst (__call__ (get_release switch_off)
         (quiet_context false ("Release: 7.6" +:+ nl) "") empty_world)
  = Return (VStr "7.6")
  ∧ fst (__call__ (get_release switch_off)
           (quiet_context false
              ("Release:" +:+ nl +:+ "Usage: Production" +:+ nl) "")
           empty_world)
    = Return (VStr "Usage:").
Proof.
  split.
  - apply (get_release_first_token switch_off
             (quiet_context false ("Release: 7.6" +:+ nl) "") empty_world ()
             "" " " "7.6" nl ""); reflexivity.
  - apply (get_release_first_token switch_off
             (quiet_context false
                ("Release:" +:+ nl +:+ "Usage: Production" +:+ nl) "")
             empty_world () "" nl "Usage:" (" Production" +:+ nl) "");
      reflexivity.
Defined.

(** ** Certificates on disk *)

Section Certificates.
Context {X : Type}.
Variable os_path_isdir : string → X → bool.
Variable os_path_isfile : string → X → bool.
Variable os_listdir : string → X → listdir_outcome.
Implicit Types (context : IsolatedActions X) (w : World X).

(** The comprehension keeps the files, in the order of the listing,
    and asks the system nothing else. *)
Lemma curr_certs_of_run context path names w :
  curr_certs_of os_path_isfile context path names w
  = (Return (certs_in os_path_isfile context path names (system w)), w).
Proof.
  induction names as [|f names IH]; [done|].
  cbn [curr_certs_of]. unfold bind, isfile. rewrite IH. unfold ret, certs_in.
  rewrite filter_cons.
  destruct (os_path_isfile _ (system w)) eqn:E.
  - rewrite decide_True by done. done.
  - rewrite decide_False by done. done.
Qed.


(** One round of the loop, for a path that can be listed. *)
Lemma collect_certs_step context path paths certs w :
  unlistable os_path_isdir os_listdir context path (system w) = None →
  collect_certs os_path_isdir os_path_isfile os_listdir context
    (path :: paths) certs w
  = collect_certs os_path_isdir os_path_isfile os_listdir context paths
      (certs ++ certs_in os_path_isfile context path
                  (entries_of os_path_isdir os_listdir context path (system w))
                  (system w)) w.
Proof.
  unfold unlistable, entries_of. intros Hlist.
  cbn [collect_certs]. unfold bind at 1, isdir.
  destruct (os_path_isdir _ (system w)); cbn [negb].
  - unfold bind at 1, listdir.
    destruct (os_listdir _ (system w)) as [names|str]; [|done].
    unfold bind at 1. rewrite curr_certs_of_run.
    destruct (certs_in _ _ _ names _) eqn:E; [|done].
    by rewrite app_nil_r.
  - by rewrite app_nil_r.
Qed.

(** One round of the loop, for a directory that cannot be listed. *)
Lemma collect_certs_failure context path paths certs w str :
  unlistable os_path_isdir os_listdir context path (system w) = Some str →
  collect_certs os_path_isdir os_path_isfile os_listdir context
    (path :: paths) certs w
  = (Raise (OSError str), w).
Proof.
  unfold unlistable. intros Hlist.
  cbn [collect_certs]. unfold bind at 1, isdir.
  destruct (os_path_isdir _ (system w)); cbn [negb]; [|done].
  unfold bind at 1, listdir.
  destruct (os_listdir _ (system w)) as [names|str']; [done|].
  by injection Hlist as ->.
Qed.

Lemma collect_certs_world context paths certs w :
  snd (collect_certs os_path_isdir os_path_isfile os_listdir context
         paths certs w) = w.
Proof.
  revert certs. induction paths as [|path paths IH]; intros certs; [done|].
  destruct (unlistable os_path_isdir os_listdir context path (system w))
    as [str|] eqn:E.
  - by rewrite (collect_certs_failure _ _ _ _ _ str).
  - rewrite collect_certs_step by done. apply IH.
Qed.
(** The call asks the system and changes nothing. *)
Lemma existing_certificates_world env context w :
  snd (__call__ (get_existing_product_certificates os_path_isdir
                   os_path_isfile os_listdir env) context w) = w.
Proof.
  unfold get_existing_product_certificates, with_rhsm.
  destruct (skip_rhsm env); [done|].
  cbn [__call__ get_existing_product_certificates_def]. unfold bind.
  pose proof (collect_certs_world context
                ["/etc/pki/product"; "/etc/pki/product-default"] [] w) as Hw.
  destruct (collect_certs _ _ _ _ _ _ w) as [[certs|e] w']; cbn in *; done.
Qed.

(** Outside skip mode it returns a list. *)
Lemma existing_certificates_list env context w v w' :
  skip_rhsm env = false →
  __call__ (get_existing_product_certificates os_path_isdir
              os_path_isfile os_listdir env) context w = (Return v, w') →
  ∃ l, v = VList l.
Proof.
  unfold get_existing_product_certificates, with_rhsm. intros ->.
  cbn [__call__ get_existing_product_certificates_def]. unfold bind.
  destruct (collect_certs _ _ _ _ _ _ w) as [[certs|e] w1]; [|done].
  unfold ret. intros [= <- <-]. by eexists.
Qed.
End Certificates.

(** X7.  Outside skip mode, when each of the two certificate
    directories that exists can be listed,
    [get_existing_product_certificates] returns the files of
    [/etc/pki/product] followed by the files of
    [/etc/pki/product-default], each as the directory joined with the
    name of the entry, in the order of the listings; entries that are
    not files and directories that do not exist contribute nothing, and
    the world is left as it was. *)
Theorem get_existing_product_certificates_lists_files {X}
    (os_path_isdir os_path_isfile : string → X → bool)
    (os_listdir : string → X → listdir_outcome)
    (env : gmap string string) (context : IsolatedActions X) (w : World X) :
  skip_rhsm env = false →
  unlistable os_path_isdir os_listdir context "/etc/pki/product" (system w)
    = None →
  unlistable os_path_isdir os_listdir context "/etc/pki/product-default"
    (system w) = None →
  __call__ (get_existing_product_certificates os_path_isdir os_path_isfile
              os_listdir env) context w
  = (Return (VList
       (certs_in os_path_isfile context "/etc/pki/product"
          (entries_of os_path_isdir os_listdir context "/etc/pki/product"
             (system w)) (system w)
        ++ certs_in os_path_isfile context "/etc/pki/product-default"
             (entries_of os_path_isdir os_listdir context
                "/etc/pki/product-default" (system w)) (system w))), w).
Proof.
  intros Hskip H1 H2.
  unfold get_existing_product_certificates, with_rhsm. rewrite Hskip.
  cbn [__call__ get_existing_product_certificates_def].
  unfold bind at 1.
  rewrite collect_certs_step by done. rewrite collect_certs_step by done.
  reflexivity.
Qed.

Lemma get_existing_product_certificates_lists_files_witness :
  let d : disk :=
    ({[ "/etc/pki/product" := ["69.pem"; "backup"; "479.pem"] ]},
     ["/etc/pki/product/69.pem"; "/etc/pki/product/479.pem"]) in
  fst (__call__ (get_existing_product_certificates disk_isdir disk_isfile
                   disk_listdir switch_off) disk_context (disk_world d))
  = Return (VList ["/etc/pki/product/69.pem"; "/etc/pki/product/479.pem"]).
Proof.
  intros d.
  apply (f_equal fst
           (get_existing_product_certificates_lists_files disk_isdir
              disk_isfile disk_listdir switch_off disk_context (disk_world d)
              eq_refl eq_refl eq_refl)).
Defined.

(** X8.  Outside skip mode, when one of the two certificate directories
    exists and [os.listdir] fails on it, the [OSError] of the first
    such directory leaves [get_existing_product_certificates] as it
    is: it is not turned into a terminal error, and what the first
    directory gave is not returned. *)
Theorem get_existing_product_certificates_listing_failure {X}
    (os_path_isdir os_path_isfile : string → X → bool)
    (os_listdir : string → X → listdir_outcome)
    (env : gmap string string) (context : IsolatedActions X) (w : World X)
    (str : string) :
  skip_rhsm env = false →
  unlistable os_path_isdir os_listdir context "/etc/pki/product" (system w)
    = Some str
  ∨ (unlistable os_path_isdir os_listdir context "/etc/pki/product" (system w)
       = None
     ∧ unlistable os_path_isdir os_listdir context "/etc/pki/product-default"
         (system w) = Some str) →
  __call__ (get_existing_product_certificates os_path_isdir os_path_isfile
              os_listdir env) context w
  = (Raise (OSError str), w).
Proof.
  intros Hskip H.
  unfold get_existing_product_certificates, with_rhsm. rewrite Hskip.
  cbn [__call__ get_existing_product_certificates_def].
  unfold bind at 1.
  destruct H as [H1|[H1 H2]].
  - by rewrite (collect_certs_failure _ _ _ _ _ _ _ _ str).
  - rewrite collect_certs_step by done.
    by rewrite (collect_certs_failure _ _ _ _ _ _ _ _ str).
Qed.

Lemma get_existing_product_certificates_listing_failure_witness :
  let os_listdir (p : string) (d : disk) :=
    if bool_decide (p = "/etc/pki/product-default")
    then NotListed "Permission denied" else disk_listdir p d in
  let d : disk :=
    ({[ "/etc/pki/product" := ["69.pem"];
        "/etc/pki/product-default" := ["69.pem"] ]},
     ["/etc/pki/product/69.pem"; "/etc/pki/product-default/69.pem"]) in
  __call__ (get_existing_product_certificates disk_isdir disk_isfile
              os_listdir switch_off) disk_context (disk_world d)
  = (Raise (OSError "Permission denied"), disk_world d).
Proof.
  intros os_listdir d.
  apply (get_existing_product_certificates_listing_failure disk_isdir
           disk_isfile os_listdir switch_off disk_context (disk_world d)
           "Permission denied" eq_refl).
  right. split; vm_compute; reflexivity.
Defined.

(** X9.  In either mode, and whether it returns or raises,
    [get_existing_product_certificates] runs no command, removes and
    copies nothing and logs nothing: the world after the call is the
    world before it. *)
Theorem get_existing_product_certificates_reads_only {X}
    (os_path_isdir os_path_isfile : string → X → bool)
    (os_listdir : string → X → listdir_outcome)
    (env : gmap string string) (context : IsolatedActions X) (w : World X) :
  snd (__call__ (get_existing_product_certificates os_path_isdir
                   os_path_isfile os_listdir env) context w) = w.
Proof. apply existing_certificates_world. Qed.

(** ** Switching the certificate, for any snapshot *)

Section SwitchAny.
Context {X : Type}.
Variable os_path_isdir : string → X → bool.
Implicit Types (context : IsolatedActions X) (w : World X).

(** The removal loop always returns, whatever the removals do. *)
Lemma removal_loop context certs w :
  for_each certs (λ existing,
    try_except (remove context existing) (λ e,
      match e with
      | OSError _ =>
          Some (logger WARNING "Failed to remove existing certificate: %s"
                  [AStr existing])
      | _ => None
      end)) w
  = (Return (),
     MkWorld (environ w) (snd (removal_attempts context certs (system w)))
       (trace w ++ fst (removal_attempts context certs (system w)))).
Proof.
  revert w. induction certs as [|c certs IH]; intros w.
  - cbn. rewrite app_nil_r. by destruct w.
  - cbn [for_each removal_attempts fst snd]. unfold bind at 1.
    rewrite removal_attempt. rewrite IH. unfold record.
    cbn [system environ trace]. by rewrite <- app_assoc.
Qed.

Lemma removal_attempts_removals context certs x :
  filter (λ ev, is_removal ev = true) (fst (removal_attempts context certs x))
  = Remove <$> certs.
Proof.
  revert x. induction certs as [|c certs IH]; intros x; [done|].
  cbn [removal_attempts fst]. rewrite filter_app, IH. unfold removal_events.
  by destruct (fst (ctx_remove context c x)).
Qed.

Lemma removal_attempts_events context certs x :
  Forall (λ ev, is_removal ev = true ∨ is_warning ev = true)
    (fst (removal_attempts context certs x)).
Proof.
  revert x. induction certs as [|c certs IH]; intros x; [constructor|].
  cbn [removal_attempts fst]. apply Forall_app. split; [|apply IH].
  unfold removal_events.
  destruct (fst (ctx_remove context c x)); repeat constructor; by left + right.
Qed.
End SwitchAny.

(** X10.  Outside skip mode and for a snapshot with any number of
    certificates, [switch_certificate] attempts to remove every
    certificate of the snapshot once, in the order of the snapshot and
    whether or not earlier removals failed; until the last attempt it
    calls nothing but removals and the warnings of those that failed,
    and only then makes the copies.  A failed removal never ends the
    call: it returns as soon as the copies succeed. *)
Theorem switch_certificate_removes_each {X}
    (os_path_isdir : string → X → bool) (env : gmap string string)
    (context : IsolatedActions X) (rhsm_info : RHSMInfo) (cert_path : string)
    (w : World X) :
  skip_rhsm env = false →
  let run := __call__ (switch_certificate os_path_isdir env)
               (context, rhsm_info, cert_path) w in
  let removing :=
    removal_attempts context (existing_product_certificates rhsm_info)
      (system w) in
  trace (snd run)
  = trace w ++ fst removing
      ++ copies_made os_path_isdir context cert_path (snd removing)
  ∧ filter (λ ev, is_removal ev = true) (fst removing)
    = Remove <$> existing_product_certificates rhsm_info
  ∧ Forall (λ ev, is_removal ev = true ∨ is_warning ev = true) (fst removing)
  ∧ ((∀ src dst x, fst (ctx_copy_to context src dst x) = None) →
     fst run = Return VNone).
Proof.
  intros Hskip run removing.
  split; [|split; [apply removal_attempts_removals|
           split; [apply removal_attempts_events|]]].
  - subst run. unfold switch_certificate, with_rhsm. rewrite Hskip.
    cbn [__call__ switch_certificate_def]. unfold bind at 1. unfold bind at 1.
    rewrite removal_loop. fold removing.
    destruct (copy_loop os_path_isdir context cert_path
                (MkWorld (environ w) (snd removing) (trace w ++ fst removing)))
      as [Htrace _].
    cbn [system trace] in Htrace.
    destruct (for_each _ _ (MkWorld _ _ _)) as [[[]|e] w']; unfold ret;
      cbn [snd] in *; by rewrite Htrace, <- app_assoc.
  - intros Hcopy. subst run. unfold switch_certificate, with_rhsm.
    rewrite Hskip.
    cbn [__call__ switch_certificate_def]. unfold bind at 1. unfold bind at 1.
    rewrite removal_loop. fold removing.
    destruct (copy_loop os_path_isdir context cert_path
                (MkWorld (environ w) (snd removing) (trace w ++ fst removing)))
      as [_ Hret].
    specialize (Hret Hcopy).
    destruct (for_each _ _ (MkWorld _ _ _)) as [[[]|e] w']; unfold ret;
      cbn [fst] in *; done.
Qed.

Lemma switch_certificate_removes_each_witness :
  let certs := ["/etc/pki/product/69.pem"; "/etc/pki/product/70.pem";
                "/etc/pki/product-default/69.pem"] in
  let run := __call__ (switch_certificate (λ _ _, true) switch_off)
               (failing_context false, snapshot certs,
                "/usr/share/leapp/479.pem") empty_world in
  filter (λ ev, is_removal ev = true) (trace (snd run)) = Remove <$> certs
  ∧ fst run = Return VNone.
Proof.
  intros certs run.
  destruct (switch_certificate_removes_each (λ _ _, true) switch_off
              (failing_context false) (snapshot certs)
              "/usr/share/leapp/479.pem" empty_world eq_refl)
    as (Htrace & Hrem & _ & Hret).
  split.
  - reflexivity.
  - apply Hret. reflexivity.
Defined.

(** ** Queries and the scan *)

Section Queries.
Context {X : Type}.
Implicit Types (context : IsolatedActions X) (w : World X).

(** The body the three queries of [subscription-manager] share, up to
    the command and to what is read from its output. *)
Lemma query_one_command context (cmd : list string) (k : CallResult → value) w :
  one_command cmd w
    (_handle_rhsm_exceptions None (result <- call context cmd ;; ret (k result)) w).
Proof.
  unfold one_command.
  unfold _handle_rhsm_exceptions, try_except, bind, call, bind, emit, on_system.
  cbn [system environ trace].
  destruct (ctx_call context cmd (system w)) as [[r|s err|s] x];
    cbn [fst snd trace ret raise logger emit].
  - by exists [].
  - by exists [].
  - exists [Log ERROR "Failed to execute subscription-manager executable" []].
    unfold logger, emit, raise. cbn [fst snd trace].
    split; [by rewrite <- app_assoc|]. by repeat constructor.
Qed.

Lemma query_value context (cmd : list string) (k : CallResult → value) w v w' :
  _handle_rhsm_exceptions None (result <- call context cmd ;; ret (k result)) w
    = (Return v, w') →
  ∃ r, v = k r.
Proof.
  unfold _handle_rhsm_exceptions, try_except, bind, call, bind, emit, on_system.
  cbn [system environ trace].
  destruct (ctx_call context cmd (system w)) as [[r|s err|s] x];
    cbn [fst snd trace ret raise logger emit]; unfold ret, raise, logger, emit;
    intros [= <- <-]. by exists r.
Qed.

Lemma duplicate_events_notes ids :
  Forall (λ ev, is_note ev = true) (duplicate_events ids).
Proof. destruct ids; by repeat constructor. Qed.

Lemma available_repo_ids_one_command context releasever w :
  one_command (repoinfo_cmd releasever) w
    (__call__ get_available_repo_ids (context, releasever) w).
Proof.
  destruct (ctx_call context (repoinfo_cmd releasever) (system w))
    as [[r|s err|s] x] eqn:Hcall.
  - rewrite (get_available_repo_ids_run _ _ _ _ _ Hcall).
    unfold _get_repos.
    pose proof (list_of_parse_world (findall0 _RE_REPO_BLOCK (stdout r))
      (record (duplicate_events (findall1 _RE_DUPLICATE (stderr r)))
         (MkWorld (environ w) x (trace w ++ [Call (repoinfo_cmd releasever)]))))
      as Hw.
    destruct (list_of _ _) as [[repos|e] w']; cbn [snd] in Hw; subst w'.
    + exists (duplicate_events (findall1 _RE_DUPLICATE (stderr r))
                ++ [available_message (rhsm_repoids repos)]).
      unfold record. cbn [snd trace]. split; [by rewrite <- !app_assoc|].
      apply Forall_app. split; [apply duplicate_events_notes|].
      unfold available_message. destruct (rhsm_repoids repos);
        by repeat constructor.
    + exists (duplicate_events (findall1 _RE_DUPLICATE (stderr r))).
      unfold record. cbn [snd trace]. split; [by rewrite <- !app_assoc|].
      apply duplicate_events_notes.
  - cbn [__call__ get_available_repo_ids].
    unfold bind at 1. unfold try_except, call. unfold bind at 1.
    unfold emit, on_system. cbn [system environ trace]. rewrite Hcall.
    unfold raise. by exists [].
  - cbn [__call__ get_available_repo_ids].
    unfold bind at 1. unfold try_except, call. unfold bind at 1.
    unfold emit, on_system. cbn [system environ trace]. rewrite Hcall.
    by exists [].
Qed.

Lemma available_repo_ids_list context releasever w v w' :
  __call__ get_available_repo_ids (context, releasever) w = (Return v, w') →
  ∃ l, v = VList l.
Proof.
  destruct (ctx_call context (repoinfo_cmd releasever) (system w))
    as [[r|s err|s] x] eqn:Hcall.
  - rewrite (get_available_repo_ids_run _ _ _ _ _ Hcall).
    destruct (list_of _ _) as [[repos|e] w1]; [|done].
    intros [= <- <-]. by eexists.
  - cbn [__call__ get_available_repo_ids].
    unfold bind at 1. unfold try_except, call. unfold bind at 1.
    unfold emit, on_system. cbn [system environ trace]. rewrite Hcall.
    unfold raise. done.
  - cbn [__call__ get_available_repo_ids].
    unfold bind at 1. unfold try_except, call. unfold bind at 1.
    unfold emit, on_system. cbn [system environ trace]. rewrite Hcall.
    done.
Qed.

Lemma commands_notes notes l :
  Forall (λ ev, is_note ev = true) notes →
  commands (notes ++ l) = commands l.
Proof.
  intros H. unfold commands. rewrite filter_app.
  induction H as [|ev notes Hev _ IH]; [done|].
  rewrite filter_cons. destruct ev; try done; by rewrite decide_False.
Qed.

Lemma commands_one_command (cmd : list string) notes l :
  Forall (λ ev, is_note ev = true) notes →
  commands (Call cmd :: notes ++ l) = Call cmd :: commands l.
Proof.
  intros H. unfold commands at 1. rewrite filter_cons, decide_True by done.
  f_equal. by apply commands_notes.
Qed.
End Queries.

Section QueriesOutsideSkip.
Context {X : Type}.
Variable env : gmap string string.
Hypothesis Hskip : skip_rhsm env = false.
Implicit Types (context : IsolatedActions X) (w : World X).

Lemma attached_skus_one_command context w :
  one_command ["subscription-manager"; "list"; "--consumed"] w
    (__call__ (get_attached_skus env) context w).
Proof.
  unfold get_attached_skus, with_rhsm. rewrite Hskip.
  apply (query_one_command context _
           (λ r, VList (findall1 _RE_SKU_CONSUMED (stdout r)))).
Qed.

Lemma enabled_repo_ids_one_command context w :
  one_command ["subscription-manager"; "repos"; "--list-enabled"] w
    (__call__ (get_enabled_repo_ids env) context w).
Proof.
  unfold get_enabled_repo_ids, with_rhsm. rewrite Hskip.
  apply (query_one_command context _
           (λ r, VList (findall1 _RE_REPO_UID (stdout r)))).
Qed.

Lemma release_one_command context w :
  one_command ["subscription-manager"; "release"] w
    (__call__ (get_release env) context w).
Proof.
  unfold get_release, with_rhsm. rewrite Hskip.
  apply (query_one_command context _
           (λ r, VStr match findall1 _RE_RELEASE (stdout r) with
                      | r0 :: _ => r0
                      | [] => ""
                      end)).
Qed.

Lemma attached_skus_list context w v w' :
  __call__ (get_attached_skus env) context w = (Return v, w') →
  ∃ l, v = VList l.
Proof.
  unfold get_attached_skus, with_rhsm. rewrite Hskip. intros H.
  apply (query_value context _
           (λ r, VList (findall1 _RE_SKU_CONSUMED (stdout r)))) in H.
  destruct H as [r ->]. by eexists.
Qed.

Lemma enabled_repo_ids_list context w v w' :
  __call__ (get_enabled_repo_ids env) context w = (Return v, w') →
  ∃ l, v = VList l.
Proof.
  unfold get_enabled_repo_ids, with_rhsm. rewrite Hskip. intros H.
  apply (query_value context _
           (λ r, VList (findall1 _RE_REPO_UID (stdout r)))) in H.
  destruct H as [r ->]. by eexists.
Qed.

Lemma release_str context w v w' :
  __call__ (get_release env) context w = (Return v, w') →
  ∃ s, v = VStr s.
Proof.
  unfold get_release, with_rhsm. rewrite Hskip. intros H.
  apply (query_value context _
           (λ r, VStr match findall1 _RE_RELEASE (stdout r) with
                      | r0 :: _ => r0
                      | [] => ""
                      end)) in H.
  destruct H as [r ->]. by eexists.
Qed.

(** A command, and then a run in order. *)
Lemma runs_in_order_bind {A B} (cmd : list string) (cmds : list event)
    (m : M X A) (k : A → M X B) w :
  one_command cmd w (m w) →
  (∀ a w1, runs_in_order cmds w1 (k a w1)) →
  runs_in_order (Call cmd :: cmds) w ((a <- m ;; k a) w).
Proof.
  intros (notes & Ht & Hn) Hk. unfold bind.
  assert (Forall (λ ev, is_call ev = true ∨ is_note ev = true) notes) as Hn'.
  { eapply Forall_impl; [exact Hn|]. intros ev Hev. by right. }
  destruct (m w) as [[a|e] w1]; cbn [snd] in Ht.
  - destruct (Hk a w1) as (evs & Ht' & Hp & Hr & Hf).
    exists (Call cmd :: notes ++ evs).
    split; [by rewrite Ht', Ht, <- app_assoc|].
    rewrite commands_one_command by done.
    split; [by apply prefix_cons|]. split.
    + intros b Hb. f_equal. by apply (Hr b).
    + constructor; [by left|]. by apply Forall_app.
  - exists (Call cmd :: notes). split; [done|].
    rewrite <- (app_nil_r notes), commands_one_command by done.
    split; [apply prefix_cons, prefix_nil|]. split; [done|].
    rewrite app_nil_r. constructor; [by left|done].
Qed.
End QueriesOutsideSkip.

(** X11.  Outside skip mode [get_attached_skus], [get_enabled_repo_ids]
    and [get_release], and in either mode [get_available_repo_ids],
    run their command once whether it succeeds or fails: they never
    retry it, never pause, and apart from it only log and report. *)
Theorem queries_run_one_command {X} (env : gmap string string)
    (context : IsolatedActions X) (releasever : option string) (w : World X) :
  skip_rhsm env = false →
  one_command ["subscription-manager"; "list"; "--consumed"] w
    (__call__ (get_attached_skus env) context w)
  ∧ one_command (repoinfo_cmd releasever) w
      (__call__ get_available_repo_ids (context, releasever) w)
  ∧ one_command ["subscription-manager"; "repos"; "--list-enabled"] w
      (__call__ (get_enabled_repo_ids env) context w)
  ∧ one_command ["subscription-manager"; "release"] w
      (__call__ (get_release env) context w).
Proof.
  intros Hskip.
  split; [by apply attached_skus_one_command|].
  split; [apply available_repo_ids_one_command|].
  split; [by apply enabled_repo_ids_one_command|].
  by apply release_one_command.
Qed.

Lemma queries_run_one_command_witness :
  one_command ["subscription-manager"; "release"] empty_world
    (__call__ (get_release switch_off) (failing_context false) empty_world)
  ∧ trace (snd (__call__ (get_release switch_off) (broken_context false)
                  empty_world))
    = [Call ["subscription-manager"; "release"];
       Log ERROR "Failed to execute subscription-manager executable" []].
Proof.
  split; [|reflexivity].
  apply (queries_run_one_command switch_off (failing_context false) None
           empty_world eq_refl).
Defined.

(** X12.  Outside skip mode the commands that [scan_rhsm_info] runs
    are the first ones, none skipped, of
    [subscription-manager list --consumed], [yum repoinfo],
    [subscription-manager repos --list-enabled] and
    [subscription-manager release], each run once and in this order;
    apart from them it only logs and reports.  It returns a snapshot,
    never [None], and only after all four commands have run. *)
Theorem scan_rhsm_info_commands {X}
    (os_path_isdir os_path_isfile : string → X → bool)
    (os_listdir : string → X → listdir_outcome)
    (env : gmap string string) (context : IsolatedActions X) (w : World X) :
  skip_rhsm env = false →
  let run := scan_rhsm_info os_path_isdir os_path_isfile os_listdir env
               context w in
  runs_in_order scan_commands w run ∧ fst run ≠ Return None.
Proof.
  intros Hskip run. subst run. unfold scan_rhsm_info. rewrite Hskip.
  split.
  - unfold scan_rhsm_info_def, scan_commands.
    assert (∀ {A B} (m : M X A) (k : A → M X B) (k' : B → M X (option RHSMInfo)),
              (b <- (a <- m ;; k a) ;; k' b)%py
              = (a <- m ;; (b <- k a ;; k' b))%py) as Hassoc.
    { intros A B m k k'. unfold bind.
      apply functional_extensionality. intros w0.
      by destruct (m w0) as [[a|e] w1]. }
    rewrite Hassoc.
    apply runs_in_order_bind; [by apply attached_skus_one_command|].
    intros skus w1. rewrite Hassoc.
    apply (runs_in_order_bind (repoinfo_cmd None));
      [apply available_repo_ids_one_command|].
    intros available w2. rewrite Hassoc.
    apply runs_in_order_bind; [by apply enabled_repo_ids_one_command|].
    intros enabled w3. rewrite Hassoc.
    apply runs_in_order_bind; [by apply release_one_command|].
    intros rel w4. exists [].
    pose proof (existing_certificates_world os_path_isdir os_path_isfile
                  os_listdir env context w4) as Hw.
    unfold bind.
    destruct (__call__ _ context w4) as [[certs|e] w5]; cbn [snd] in Hw;
      subst w5; unfold ret; cbn [snd fst];
      (split; [by rewrite app_nil_r|]); (split; [done|]); split; done.
  - unfold bind.
    destruct (scan_rhsm_info_def _ _ _ _ _ w) as [[info|e] w']; done.
Qed.

Lemma scan_rhsm_info_commands_witness :
  runs_in_order scan_commands empty_world
    (scan_rhsm_info (λ _ _, false) (λ _ _, false) (λ _ _, Listed [])
       switch_off (failing_context false) empty_world)
  ∧ commands
      (trace (snd (scan_rhsm_info (λ _ _, false) (λ _ _, false)
                     (λ _ _, Listed []) switch_off (failing_context false)
                     empty_world)))
    = [Call ["subscription-manager"; "list"; "--consumed"]].
Proof.
  split; [|reflexivity].
  apply (scan_rhsm_info_commands (λ _ _, false) (λ _ _, false)
           (λ _ _, Listed []) switch_off (failing_context false) empty_world
           eq_refl).
Defined.

(** X13.  Outside skip mode [scan_rhsm_info] returns a snapshot exactly
    when the five queries return one after the other, each started in
    the world the one before it left, in the order attached SKUs,
    available repositories, enabled repositories, release, product
    certificates; the fields of the snapshot then hold what the queries
    returned, unchanged. *)
Theorem scan_rhsm_info_snapshot {X}
    (os_path_isdir os_path_isfile : string → X → bool)
    (os_listdir : string → X → listdir_outcome)
    (env : gmap string string) (context : IsolatedActions X)
    (w w' : World X) (info : RHSMInfo) :
  skip_rhsm env = false →
  scan_rhsm_info os_path_isdir os_path_isfile os_listdir env context w
    = (Return (Some info), w')
  ↔ ∃ w1 w2 w3,
      __call__ (get_attached_skus env) context w
        = (Return (VList (attached_skus info)), w1)
      ∧ __call__ get_available_repo_ids (context, None) w1
        = (Return (VList (available_repos info)), w2)
      ∧ __call__ (get_enabled_repo_ids env) context w2
        = (Return (VList (enabled_repos info)), w3)
      ∧ __call__ (get_release env) context w3
        = (Return (VStr (release info)), w')
      ∧ __call__ (get_existing_product_certificates os_path_isdir
                    os_path_isfile os_listdir env) context w'
        = (Return (VList (existing_product_certificates info)), w').
Proof.
  intros Hskip. unfold scan_rhsm_info. rewrite Hskip.
  unfold scan_rhsm_info_def, bind. split.
  - destruct (__call__ (get_attached_skus env) context w)
      as [[skus|e] w1] eqn:E1; [|done].
    destruct (attached_skus_list env Hskip _ _ _ _ E1) as [l1 ->].
    destruct (__call__ get_available_repo_ids (context, None) w1)
      as [[available|e] w2] eqn:E2; [|done].
    destruct (available_repo_ids_list _ _ _ _ _ E2) as [l2 ->].
    destruct (__call__ (get_enabled_repo_ids env) context w2)
      as [[enabled|e] w3] eqn:E3; [|done].
    destruct (enabled_repo_ids_list env Hskip _ _ _ _ E3) as [l3 ->].
    destruct (__call__ (get_release env) context w3)
      as [[rel|e] w4] eqn:E4; [|done].
    destruct (release_str env Hskip _ _ _ _ E4) as [s4 ->].
    pose proof (existing_certificates_world os_path_isdir os_path_isfile
                  os_listdir env context w4) as Hw.
    destruct (__call__ (get_existing_product_certificates _ _ _ env) context w4)
      as [[certs|e] w5] eqn:E5; [|done].
    destruct (existing_certificates_list _ _ _ env _ _ _ _ Hskip E5) as [l5 ->].
    cbn [snd] in Hw. subst w5. unfold ret. cbn [as_list as_str app].
    intros [= <- <-]. exists w1, w2, w3. cbn. by rewrite E4.
  - intros (w1 & w2 & w3 & -> & -> & -> & -> & ->).
    unfold ret. cbn [as_list as_str app]. by destruct info.
Qed.

Lemma scan_rhsm_info_snapshot_witness :
  let out (cmd : list string) :=
    if bool_decide (cmd = ["subscription-manager"; "list"; "--consumed"])
    then "SKU: RH00003" +:+ nl
    else if bool_decide (cmd = ["subscription-manager"; "release"])
    then "Release: 7.6" +:+ nl
    else if bool_decide (cmd = ["yum"; "repoinfo"])
    then scenario_stdout usual_fields
    else "Repo ID:   rhel-7-server-rpms" +:+ nl in
  ∃ w', scan_rhsm_info (λ _ _, false) (λ _ _, false) (λ _ _, Listed [])
          switch_off (printing_context out) empty_world
        = (Return (Some (MkRHSMInfo ["RH00003"] ["rhel-7-server-rpms"]
                           ["rhel-7-server-rpms"] "7.6" [])), w').
Proof.
  intros out. eexists.
  apply (scan_rhsm_info_snapshot (λ _ _, false) (λ _ _, false)
           (λ _ _, Listed []) switch_off (printing_context out) empty_world
           _ _ eq_refl).
  eexists _, _, _. cbn [attached_skus available_repos enabled_repos release
                        existing_product_certificates].
  split; [vm_compute; reflexivity|].
  split; [vm_compute; reflexivity|].
  split; [vm_compute; reflexivity|].
  split; vm_compute; reflexivity.
Defined.

(** ** Errors of the command runner *)

(** X14.  Whatever its [hint] argument and the body of the [with]
    block, [_handle_rhsm_exceptions] returns exactly when the body
    returns, with the same value; no error of the command runner
    leaves the block as it is; and an exception that leaves it is
    either the one the body raised or a terminal error whose hint is
    not empty, also when the hint passed is the empty string. *)
Theorem handle_rhsm_exceptions_outcomes {X A} (hint : option string)
    (body : M X A) (w : World X) :
  let run := _handle_rhsm_exceptions hint body w in
  (∀ a, fst run = Return a ↔ fst (body w) = Return a)
  ∧ (∀ e, fst run = Raise e →
       ¬ runner_error e
       ∧ (fst (body w) = Raise e
          ∨ ∃ m d h, e = StopActorExecutionError m (Some d)
                     ∧ d !! "hint" = Some h ∧ h ≠ "")).
Proof.
  intros run. subst run. unfold _handle_rhsm_exceptions, try_except.
  destruct (body w) as [[a|[m d|s err|s|l]] w1]; cbn [fst].
  - split; [done|]. intros e [=].
  - split; [done|]. intros e [= <-]. split; [by intros []|by left].
  - unfold raise. cbn [fst]. split; [done|]. intros e [= <-].
    split; [by intros []|right]. eexists _, _, _. split; [reflexivity|].
    rewrite lookup_insert_ne, lookup_insert_ne by done.
    rewrite lookup_singleton_eq. split; [reflexivity|].
    by destruct hint as [[|c h]|].
  - unfold bind, logger, emit, raise. cbn [fst]. split; [done|].
    intros e [= <-]. split; [by intros []|right].
    eexists _, _, _. split; [reflexivity|].
    rewrite lookup_singleton_eq. by split.
  - split; [done|]. intros e [= <-]. split; [by intros []|by left].
Qed.

(** X15.  Outside the [with] block a command that cannot be started is
    not turned into a terminal error.  Outside skip mode and in an
    isolated context, [set_container_mode] runs
    [ln -s /etc/rhsm /etc/rhsm-host] once, returns [None] when it exits
    with status 0 and raises the [OSError] itself when it cannot be
    started.  In either mode and in any context,
    [get_available_repo_ids] raises the [OSError] itself when
    [yum repoinfo] cannot be started.  Neither logs nor reports
    anything then. *)
Theorem launch_failure_not_wrapped {X} (env : gmap string string)
    (context : IsolatedActions X) (releasever : option string)
    (w : World X) :
  (skip_rhsm env = false →
   is_isolated context = true →
   (∀ r x,
      ctx_call context ["ln"; "-s"; "/etc/rhsm"; "/etc/rhsm-host"] (system w)
        = (Exit0 r, x) →
      __call__ (set_container_mode env) context w
      = (Return VNone,
         MkWorld (environ w) x
           (trace w ++ [Call ["ln"; "-s"; "/etc/rhsm"; "/etc/rhsm-host"]])))
   ∧ (∀ str x,
        ctx_call context ["ln"; "-s"; "/etc/rhsm"; "/etc/rhsm-host"] (system w)
          = (LaunchFailure str, x) →
        __call__ (set_container_mode env) context w
        = (Raise (OSError str),
           MkWorld (environ w) x
             (trace w ++ [Call ["ln"; "-s"; "/etc/rhsm"; "/etc/rhsm-host"]]))))
  ∧ (∀ str x,
       ctx_call context (repoinfo_cmd releasever) (system w)
         = (LaunchFailure str, x) →
       __call__ get_available_repo_ids (context, releasever) w
       = (Raise (OSError str),
          MkWorld (environ w) x (trace w ++ [Call (repoinfo_cmd releasever)]))).
Proof.
  split.
  - intros Hskip Hiso.
    unfold set_container_mode, with_rhsm. rewrite Hskip.
    cbn [__call__ set_container_mode_def]. rewrite Hiso. cbn [negb].
    split; intros; unfold try_except, bind, call, bind, emit, on_system;
      cbn [system environ trace]; by rewrite H.
  - intros str x H. cbn [__call__ get_available_repo_ids].
    unfold bind at 1. unfold try_except, call, bind, emit, on_system.
    cbn [system environ trace]. by rewrite H.
Qed.

Lemma launch_failure_not_wrapped_witness :
  fst (__call__ (set_container_mode switch_off) (broken_context true)
         empty_world)
  = Raise (OSError "No such file or directory")
  ∧ fst (__call__ get_available_repo_ids (broken_context false, None)
           (set_environ switch_on empty_world))
    = Raise (OSError "No such file or directory").
Proof.
  split.
  - destruct (launch_failure_not_wrapped switch_off (broken_context true) None
                empty_world) as [Hln _].
    destruct (Hln eq_refl eq_refl) as [_ Hfail].
    apply (f_equal fst (Hfail "No such file or directory" () eq_refl)).
  - destruct (launch_failure_not_wrapped switch_on (broken_context false) None
                (set_environ switch_on empty_world)) as [_ Hyum].
    apply (f_equal fst (Hyum "No such file or directory" () eq_refl)).
Defined.

(** ** The repositories of [yum repoinfo] *)

(** A lazy repetition goes on while what follows it cannot match. *)
Lemma rep_lazy_run cs (go : charset) min prev pos s t caps k m :
  all_chars cs s = true →
  all_chars go s = true →
  (∀ prev' pos' c rest, go c = true →
     k (MState prev' pos' (String c rest) caps) = None) →
  min ≤ String.length s →
  k (MState (last_char prev s) (pos + String.length s) t caps) = Some m →
  rep cs Lazy min prev pos (s +:+ t) caps k = Some m.
Proof.
  revert min prev pos.
  induction s as [|c s IH]; intros min prev pos Hcs Hgo Hk Hmin Hend.
  - simpl in *. assert (min = 0) as -> by lia.
    change ("" +:+ t) with t. rewrite Nat.add_0_r in Hend.
    destruct t as [|d t]; simpl; by rewrite Hend.
  - rewrite append_cons. simpl in *.
    apply andb_prop in Hcs as [Hc Hcs]. apply andb_prop in Hgo as [Hg Hgo].
    rewrite Hc.
    assert (match min with
            | 0 => k (MState prev pos (String c (s +:+ t)) caps)
            | S _ => None
            end = None) as -> by (destruct min; [by apply Hk|done]).
    apply IH; [done|done|done|lia|].
    rewrite <- Hend. do 2 f_equal. lia.
Qed.

Lemma rep_lazy_stop cs prev pos rest caps k m :
  k (MState prev pos rest caps) = Some m →
  rep cs Lazy 0 prev pos rest caps k = Some m.
Proof. intros H. destruct rest; simpl; by rewrite H. Qed.

Lemma prefix_append l a b :
  String.length l ≤ String.length a →
  String.prefix l (a +:+ b) = String.prefix l a.
Proof.
  revert a. induction l as [|c l IH]; intros a Hlen.
  { by destruct a, b. }
  destruct a as [|d a]; [simpl in Hlen; lia|].
  rewrite append_cons. simpl. destruct (ascii_dec c d); [|done].
  apply IH. simpl in Hlen. lia.
Qed.

Lemma free_of_tail l s tail rest :
  String.length l ≤ S (String.length tail) →
  free_of l s (tail +:+ rest) = free_of l s tail.
Proof.
  intros Hlen. induction s as [|c s IH]; [reflexivity|].
  cbn [free_of]. rewrite IH. f_equal. f_equal.
  rewrite <- append_assoc. apply prefix_append.
  rewrite append_cons. cbn [String.length]. rewrite length_append. lia.
Qed.

Lemma all_chars_app cs a b :
  all_chars cs (a +:+ b) = all_chars cs a && all_chars cs b.
Proof.
  induction a as [|c a IH]; [reflexivity|].
  rewrite append_cons. cbn [all_chars]. by rewrite IH, andb_assoc.
Qed.

Lemma entry_ok_fields e rest :
  entry_ok e rest = true →
  blank (e_ws1 e) = true ∧ blank (e_ws2 e) = true
  ∧ starts_with id_char (e_id e) = true ∧ all_chars id_char (e_id e) = true
  ∧ match e_tail e with
    | EmptyString => true
    | String c t => Ascii.eqb c "/" && all_chars not_newline t
    end = true
  ∧ last_char (Some nl_char) (e_mid e) = Some nl_char
  ∧ free_of "Repo-filename" (id_line e +:+ e_mid e)
      ("Repo-filename" +:+ filename_line e) = true
  ∧ blank (e_ws3 e) = true ∧ all_chars not_newline (e_ws3 e) = true
  ∧ starts_with not_space (e_file e) = true
  ∧ all_chars not_newline (e_file e) = true
  ∧ free_of "Repo-id" (e_after e) rest = true.
Proof.
  unfold entry_ok. rewrite !andb_true_iff, bool_decide_eq_true. tauto.
Qed.

Lemma match_at_block e rest prev :
  entry_ok e rest = true →
  match_at _RE_REPO_BLOCK prev (block_of e +:+ e_after e +:+ rest)
  = Some (Match (block_of e) ∅).
Proof.
  intros Hok. apply entry_ok_fields in Hok
    as (_ & _ & _ & _ & _ & _ & Hfree & _ & Hws3 & _ & Hfile & _).
  unfold match_at, _RE_REPO_BLOCK, block_of.
  rewrite !append_assoc.
  rewrite rmatch_seq, rmatch_lit_append, rmatch_seq, rmatch_star.
  rewrite <- (append_assoc (id_line e) (e_mid e)).
  rewrite rep_lazy_skip; [|apply all_chars_any|].
  2:{ replace ("Repo-filename" +:+ filename_line e +:+ e_after e +:+ rest)
        with (("Repo-filename" +:+ filename_line e) +:+ e_after e +:+ rest)
        by (by rewrite !append_assoc).
      rewrite free_of_tail; [exact Hfree|].
      rewrite length_append. cbn. lia. }
  erewrite rep_lazy_stop.
  2:{ rewrite rmatch_seq, rmatch_lit_append, rmatch_seq, rmatch_star.
      replace (filename_line e +:+ e_after e +:+ rest)
        with ((":" +:+ e_ws3 e +:+ e_file e) +:+ nl +:+ e_after e +:+ rest)
        by (unfold filename_line; by rewrite !append_assoc).
      eapply (rep_lazy_run any not_newline).
      - apply all_chars_any.
      - by rewrite !all_chars_app, Hws3, Hfile.
      - intros prev' pos' c rest' Hc. unfold nl. cbn [rmatch m_prev m_rest lit].
        unfold not_newline in Hc. apply negb_true_iff in Hc.
        rewrite Ascii.eqb_sym in Hc. by rewrite Hc.
      - lia.
      - rewrite rmatch_lit_append. reflexivity. }
  cbn [m_pos m_caps]. do 2 f_equal.
  replace ("Repo-id" +:+ (id_line e +:+ e_mid e) +:+ "Repo-filename"
             +:+ filename_line e +:+ e_after e +:+ rest)
    with (("Repo-id" +:+ id_line e +:+ e_mid e +:+ "Repo-filename"
             +:+ filename_line e) +:+ e_after e +:+ rest)
    by (by rewrite !append_assoc).
  apply substring_append_eq. unfold filename_line.
  rewrite !length_append. cbn [String.length nl]. lia.
Qed.

(** Scanning goes from one block to the next. *)
Lemma finditer_from_block e rest prev :
  entry_ok e rest = true →
  group0 <$> finditer_from _RE_REPO_BLOCK 0 prev
               (block_of e +:+ e_after e +:+ rest)
  = block_of e
    :: (group0 <$> finditer_from _RE_REPO_BLOCK 0
                     (last_char (Some nl_char) (e_after e)) rest).
Proof.
  intros Hok. pose proof (match_at_block e rest prev Hok) as Hm.
  pose proof Hok as Hfields. apply entry_ok_fields in Hfields
    as (_ & _ & _ & _ & _ & _ & _ & _ & _ & _ & _ & Hafter).
  assert (∃ body, block_of e = String "R" (body +:+ nl)) as [body Hb].
  { exists ("epo-id" +:+ id_line e +:+ e_mid e +:+ "Repo-filename" +:+ ":"
              +:+ e_ws3 e +:+ e_file e).
    unfold block_of, filename_line. rewrite !append_assoc. reflexivity. }
  rewrite Hb in *. rewrite append_cons in *.
  erewrite finditer_from_hit by exact Hm.
  cbn [fmap list_fmap group0]. f_equal.
  cbn [String.length Nat.pred].
  rewrite finditer_from_skip_all, last_char_append. cbn [last_char nl].
  unfold _RE_REPO_BLOCK.
  rewrite (finditer_from_skip_free "Repo-id") by done.
  reflexivity.
Qed.

Lemma finditer_blocks prev es :
  entries_ok es = true →
  group0 <$> finditer_from _RE_REPO_BLOCK 0 prev (repoinfo_text es)
  = block_of <$> es.
Proof.
  revert prev. induction es as [|e es IH]; intros prev Hok.
  - cbn [repoinfo_text]. unfold _RE_REPO_BLOCK.
    by rewrite (finditer_from_empty "Repo-id").
  - cbn [entries_ok repoinfo_text] in *. apply andb_prop in Hok as [He Hes].
    rewrite finditer_from_block by done. cbn [fmap list_fmap].
    by rewrite IH.
Qed.

Lemma rmatch_plus cs g prev pos rest caps k :
  rmatch (Plus cs g) (MState prev pos rest caps) k
  = rep cs g 1 prev pos rest caps k.
Proof. reflexivity. Qed.

Lemma rmatch_group n r st k :
  rmatch (Group n r) st k
  = rmatch r st (λ st',
      k (MState (m_prev st') (m_pos st') (m_rest st')
           (<[n := consumed st st']> (m_caps st')))).
Proof. reflexivity. Qed.

Lemma search_from_hit r prev s m :
  match_at r prev s = Some m → search_from r prev s = Some m.
Proof. intros H. destruct s; simpl; by rewrite H. Qed.

Lemma blank_all s : blank s = true → all_chars space s = true.
Proof. by destruct s. Qed.

Lemma blank_length s : blank s = true → 1 ≤ String.length s.
Proof. destruct s; [done|]. simpl. lia. Qed.

Lemma starts_with_length cs s : starts_with cs s = true → 1 ≤ String.length s.
Proof. destruct s; [done|]. simpl. lia. Qed.

Lemma all_chars_weaken (cs cs' : charset) s :
  (∀ c, cs c = true → cs' c = true) →
  all_chars cs s = true → all_chars cs' s = true.
Proof.
  intros H. induction s as [|c s IH]; [done|]. cbn [all_chars].
  intros [Hc Hs]%andb_prop. by rewrite (H c Hc), IH.
Qed.

Lemma rmatch_bol st k : at_bol st = true → rmatch Bol st k = k st.
Proof. intros H. cbn [rmatch]. by rewrite H. Qed.

Lemma rmatch_eol st k : at_eol st = true → rmatch Eol st k = k st.
Proof. intros H. cbn [rmatch]. by rewrite H. Qed.

Lemma not_space_not_newline c :
  is_space c = false → Ascii.eqb c nl_char = false.
Proof.
  intros H. destruct (Ascii.eqb_spec c nl_char) as [->|]; [|done].
  by vm_compute in H.
Qed.

Lemma rmatch_opt_some r st k m :
  rmatch r st k = Some m → rmatch (Opt r) st k = Some m.
Proof. intros H. cbn [rmatch]. by rewrite H. Qed.

Lemma rmatch_opt_none r st k :
  rmatch r st k = None → rmatch (Opt r) st k = k st.
Proof. intros H. cbn [rmatch]. by rewrite H. Qed.

(** The end of the [Repo-id] line: nothing, or a slash and the rest of
    the line, which goes to group 2. *)
Lemma rmatch_id_tail tail tl prev pos caps :
  match tail with
  | EmptyString => true
  | String c t => Ascii.eqb c "/" && all_chars not_newline t
  end = true →
  rmatch (Opt (Group 2 (Lit "/" ⊙ Star any Lazy)) ⊙ Eol)
    (MState prev pos (tail +:+ nl +:+ tl) caps) Some
  = Some (MState (last_char prev tail) (pos + String.length tail) (nl +:+ tl)
            match tail with
            | EmptyString => caps
            | _ => <[2 := tail]> caps
            end).
Proof.
  intros Htail. rewrite rmatch_seq. destruct tail as [|c t].
  - change ("" +:+ nl +:+ tl) with (String nl_char tl).
    rewrite rmatch_opt_none by reflexivity.
    rewrite rmatch_eol by reflexivity.
    cbn [last_char String.length]. by rewrite Nat.add_0_r.
  - apply andb_prop in Htail as [Hc Ht].
    apply Ascii.eqb_eq in Hc as ->.
    apply rmatch_opt_some.
    rewrite rmatch_group, rmatch_seq.
    change (String "/" t +:+ nl +:+ tl) with ("/" +:+ t +:+ nl +:+ tl).
    rewrite rmatch_lit_append, rmatch_star.
    eapply (rep_lazy_run any not_newline); [apply all_chars_any|exact Ht| |lia|].
    + intros prev' pos' c rest' Hc. cbn [m_prev m_pos m_rest m_caps].
      cbn [rmatch at_eol m_rest]. unfold not_newline in Hc.
      apply negb_true_iff in Hc. by rewrite Hc.
    + cbn [m_prev m_pos m_rest m_caps].
      rewrite rmatch_eol by reflexivity. unfold consumed.
      cbn [m_pos m_rest last_char String.length].
      replace (pos + 1 + String.length t - pos) with (String.length ("/" +:+ t))
        by (rewrite length_append; cbn; lia).
      rewrite <- (append_assoc "/" t), substring_append.
      do 2 f_equal. lia.
Qed.

Lemma rmatch_repo_id e rest pos :
  entry_ok e rest = true →
  ∃ st, rmatch _RE_PARAM_REPO_ID (MState None pos (block_of e) ∅) Some
        = Some st
        ∧ m_caps st !! 1 = Some (e_id e).
Proof.
  intros Hok. apply entry_ok_fields in Hok
    as (Hws1 & Hws2 & Hid0 & Hid & Htail & _).
  unfold _RE_PARAM_REPO_ID, block_of, id_line.
  set (tl := e_mid e +:+ "Repo-filename" +:+ filename_line e).
  rewrite !append_assoc. fold tl.
  rewrite rmatch_seq, rmatch_bol by done.
  rewrite rmatch_seq, rmatch_lit_append, rmatch_seq, rmatch_plus.
  eexists. split.
  - eapply rep_greedy_run; [by apply blank_all|by apply blank_length|done|].
    rewrite rmatch_seq, rmatch_lit_append, rmatch_seq, rmatch_plus.
    eapply rep_greedy_run; [by apply blank_all|by apply blank_length| |].
    { destruct (e_id e) as [|c i]; [done|]. rewrite append_cons.
      cbn in Hid0. unfold id_char, not_space in Hid0.
      apply andb_prop in Hid0 as [Hc _]. by apply negb_true_iff in Hc. }
    rewrite rmatch_seq, rmatch_group, rmatch_plus.
    eapply (rep_lazy_run not_slash id_char).
    + eapply all_chars_weaken; [|exact Hid]. intros c Hc.
      unfold id_char in Hc. by apply andb_prop in Hc as [_ Hc].
    + exact Hid.
    + intros prev' pos' c rest' Hc. cbn [m_prev m_pos m_rest m_caps].
      unfold id_char, not_space, not_slash in Hc.
      apply andb_prop in Hc as [Hsp Hsl].
      apply negb_true_iff in Hsp, Hsl.
      rewrite rmatch_seq, rmatch_opt_none.
      * cbn [rmatch at_eol m_rest].
        by rewrite (not_space_not_newline c Hsp).
      * rewrite rmatch_group, rmatch_seq. cbn [rmatch lit m_prev m_rest].
        rewrite Ascii.eqb_sym in Hsl. by rewrite Hsl.
    + by apply (starts_with_length id_char).
    + cbn [m_prev m_pos m_rest m_caps]. rewrite rmatch_id_tail by done.
      reflexivity.
  - cbn [m_caps]. unfold consumed. cbn [m_pos m_rest].
    assert (<[1 := e_id e]> (∅ : gmap nat string) !! 1 = Some (e_id e))
      as Hone by apply lookup_insert_eq.
    match goal with
    | |- context [String.substring 0 ?n _] =>
        replace n with (String.length (e_id e)) by lia
    end.
    rewrite substring_append.
    destruct (e_tail e); [exact Hone|].
    by rewrite lookup_insert_ne.
Qed.

Lemma search_repo_id e rest :
  entry_ok e rest = true →
  ∃ m, search _RE_PARAM_REPO_ID (block_of e) = Some m
       ∧ group m 1 = Some (e_id e).
Proof.
  intros Hok. destruct (rmatch_repo_id e rest 0 Hok) as (st & Hst & Hcaps).
  eexists. split.
  - apply search_from_hit. unfold match_at. rewrite Hst. reflexivity.
  - exact Hcaps.
Qed.

Lemma last_char_id_line e prev : last_char prev (id_line e) = Some nl_char.
Proof. unfold id_line. by rewrite !last_char_append. Qed.

Lemma rmatch_repo_filename e rest pos :
  entry_ok e rest = true →
  ∃ st, rmatch _RE_PARAM_REPO_FILENAME
          (MState (Some nl_char) pos ("Repo-filename" +:+ filename_line e) ∅)
          Some = Some st
        ∧ m_caps st !! 1 = Some (e_file e).
Proof.
  intros Hok. apply entry_ok_fields in Hok
    as (_ & _ & _ & _ & _ & _ & _ & Hb3 & _ & Hf0 & Hfile & _).
  unfold _RE_PARAM_REPO_FILENAME.
  rewrite rmatch_seq, rmatch_bol by reflexivity.
  change ("Repo-filename" +:+ filename_line e)
    with ("Repo-filename:" +:+ e_ws3 e +:+ e_file e +:+ nl).
  rewrite rmatch_seq, rmatch_lit_append, rmatch_seq, rmatch_plus.
  eexists. split.
  - eapply rep_greedy_run; [by apply blank_all|by apply blank_length| |].
    { destruct (e_file e) as [|c f]; [done|]. rewrite append_cons.
      cbn in Hf0. unfold not_space in Hf0. by apply negb_true_iff in Hf0. }
    rewrite rmatch_seq, rmatch_group, rmatch_star.
    eapply (rep_lazy_run any not_newline);
      [apply all_chars_any|exact Hfile| |lia|].
    + intros prev' pos' c rest' Hc. cbn [m_prev m_pos m_rest m_caps].
      cbn [rmatch at_eol m_rest]. unfold not_newline in Hc.
      apply negb_true_iff in Hc. by rewrite Hc.
    + cbn [m_prev m_pos m_rest m_caps]. rewrite rmatch_eol by reflexivity.
      reflexivity.
  - cbn [m_caps]. unfold consumed. cbn [m_pos m_rest].
    match goal with
    | |- context [String.substring 0 ?n _] =>
        replace n with (String.length (e_file e)) by lia
    end.
    rewrite substring_append. apply lookup_insert_eq.
Qed.

Lemma search_repo_filename e rest :
  entry_ok e rest = true →
  ∃ m, search _RE_PARAM_REPO_FILENAME (block_of e) = Some m
       ∧ group m 1 = Some (e_file e).
Proof.
  intros Hok.
  destruct (rmatch_repo_filename e rest 0 Hok) as (st & Hst & Hcaps).
  apply entry_ok_fields in Hok
    as (_ & _ & _ & _ & _ & Hmid & Hfree & _).
  unfold search, block_of.
  replace ("Repo-id" +:+ id_line e +:+ e_mid e +:+ "Repo-filename"
             +:+ filename_line e)
    with (("Repo-id" +:+ id_line e +:+ e_mid e) +:+ "Repo-filename"
            +:+ filename_line e) by (by rewrite !append_assoc).
  unfold _RE_PARAM_REPO_FILENAME in *.
  change "Repo-filename:" with ("Repo-filename" +:+ ":") in *.
  rewrite search_from_skip.
  2:{ rewrite free_of_app. apply andb_true_intro. split; [reflexivity|].
      exact Hfree. }
  rewrite !last_char_append, last_char_id_line, Hmid.
  eexists. split.
  - apply search_from_hit. unfold match_at. rewrite Hst. reflexivity.
  - exact Hcaps.
Qed.

Section ParseBlocks.
Context {X : Type}.
Implicit Types (w : World X).

Lemma parse_block e rest w :
  entry_ok e rest = true →
  _parse_repo_params (block_of e) w = (Return (repository_of e), w).
Proof.
  intros Hok.
  destruct (search_repo_id e rest Hok) as (m1 & Hs1 & Hg1).
  destruct (search_repo_filename e rest Hok) as (m2 & Hs2 & Hg2).
  unfold _parse_repo_params, _get_repo_param, try_except, bind.
  rewrite Hs1, Hs2, Hg1, Hg2. reflexivity.
Qed.

Lemma parse_blocks es w :
  entries_ok es = true →
  list_of (_parse_repo_params <$> (block_of <$> es)) w
  = (Return (repository_of <$> es), w).
Proof.
  induction es as [|e es IH]; intros Hok; [reflexivity|].
  cbn [entries_ok] in Hok. apply andb_prop in Hok as [He Hes].
  cbn [fmap list_fmap list_of]. unfold bind at 1.
  rewrite (parse_block e _ w He). unfold bind.
  change (list_fmap _ _ ?g (list_fmap _ _ ?f es)) with (g <$> (f <$> es)).
  rewrite IH by done. reflexivity.
Qed.

Lemma get_repos_blocks lead es w :
  free_of "Repo-id" lead (repoinfo_text es) = true →
  entries_ok es = true →
  list_of (_get_repos (lead +:+ repoinfo_text es)) w
  = (Return (repository_of <$> es), w).
Proof.
  intros Hlead Hok. unfold _get_repos, findall0, finditer.
  unfold _RE_REPO_BLOCK at 1.
  rewrite (finditer_from_skip_free "Repo-id") by done.
  fold _RE_REPO_BLOCK. rewrite finditer_blocks by done.
  by apply parse_blocks.
Qed.
End ParseBlocks.

Lemma rhsm_repoids_entries es :
  rhsm_repoids (repository_of <$> es)
  = e_id <$> filter (λ e, e_file e = _DEFAULT_RHSM_REPOFILE) es.
Proof.
  unfold rhsm_repoids. induction es as [|e es IH]; [reflexivity|].
  cbn [fmap list_fmap]. rewrite !filter_cons. cbn [file repository_of].
  destruct (decide (e_file e = _DEFAULT_RHSM_REPOFILE));
    cbn [fmap list_fmap repoid repository_of]; by rewrite <- IH.
Qed.

(** X16.  When the output of [yum repoinfo] holds repositories printed
    the way yum prints them, with any text free of [Repo-id] before the
    first and between them, listing [_get_repos] gives one
    [Repository] per printed repository, in the order of the output:
    its id is the text after the white space that follows the colon of
    the [Repo-id] line, up to the first slash or the end of the line,
    and its file is the text after the white space of the
    [Repo-filename] line, up to the end of the line.  Nothing is run
    or logged for it. *)
Theorem get_repos_one_per_block {X} (lead : string) (es : list repo_entry)
    (w : World X) :
  free_of "Repo-id" lead (repoinfo_text es) = true →
  entries_ok es = true →
  list_of (_get_repos (lead +:+ repoinfo_text es)) w
  = (Return (repository_of <$> es), w).
Proof. apply get_repos_blocks. Qed.

Lemma get_repos_one_per_block_witness :
  let es :=
    [RepoEntry "           " " " "epel" "/x86_64"
       ("Repo-name    : Extra Packages for Enterprise Linux 7 - x86_64" +:+ nl
        +:+ "Repo-status  : enabled" +:+ nl)
       " " "/etc/yum.repos.d/epel.repo" nl;
     RepoEntry "           " " " "rhel-7-server-rpms" "/7Server/x86_64"
       ("Repo-name    : Red Hat Enterprise Linux 7 Server (RPMs)" +:+ nl
        +:+ "Repo-baseurl : https://cdn.redhat.com/content/dist/rhel/server/7/7Server/x86_64/os"
        +:+ nl)
       " " "/etc/yum.repos.d/redhat.repo" nl;
     RepoEntry " " " " "local" "" "" " " "/etc/yum.repos.d/my local.repo"
       ("repolist: 12,345" +:+ nl)] in
  list_of (_get_repos ("Loaded plugins: product-id, subscription-manager"
                         +:+ nl +:+ repoinfo_text es)) empty_world
  = (Return [MkRepository "epel" "/etc/yum.repos.d/epel.repo";
             MkRepository "rhel-7-server-rpms" "/etc/yum.repos.d/redhat.repo";
             MkRepository "local" "/etc/yum.repos.d/my local.repo"],
     empty_world).
Proof.
  intros es.
  apply (get_repos_one_per_block
           ("Loaded plugins: product-id, subscription-manager" +:+ nl) es
           empty_world).
  - vm_compute. reflexivity.
  - vm_compute. reflexivity.
Defined.

(** X17.  When [yum repoinfo] exits with status 0 and prints such an
    output, [get_available_repo_ids] returns the ids of the
    repositories whose file is [/etc/yum.repos.d/redhat.repo], in the
    order of the output and with their repetitions, and no id of a
    repository defined in another file. *)
Theorem get_available_repo_ids_lists_rhsm_repos {X}
    (context : IsolatedActions X) (releasever : option string)
    (lead err : string) (es : list repo_entry) (w : World X) (x : X) :
  free_of "Repo-id" lead (repoinfo_text es) = true →
  entries_ok es = true →
  ctx_call context (repoinfo_cmd releasever) (system w)
    = (Exit0 (MkCallResult (lead +:+ repoinfo_text es) err), x) →
  fst (__call__ get_available_repo_ids (context, releasever) w)
  = Return (VList (e_id <$> filter (λ e, e_file e = _DEFAULT_RHSM_REPOFILE) es)).
Proof.
  intros Hlead Hok Hcall.
  rewrite (get_available_repo_ids_run _ _ _ _ _ Hcall). cbn [stdout].
  rewrite get_repos_blocks by done. cbn [fst].
  by rewrite rhsm_repoids_entries.
Qed.

Lemma get_available_repo_ids_lists_rhsm_repos_witness :
  let es :=
    [RepoEntry "           " " " "epel" "/x86_64"
       ("Repo-name    : Extra Packages for Enterprise Linux 7 - x86_64" +:+ nl)
       " " "/etc/yum.repos.d/epel.repo" nl;
     RepoEntry "           " " " "rhel-7-server-rpms" "/7Server/x86_64"
       ("Repo-name    : Red Hat Enterprise Linux 7 Server (RPMs)" +:+ nl)
       " " "/etc/yum.repos.d/redhat.repo" nl;
     RepoEntry "           " " " "rhel-7-server-optional-rpms" "/7Server/x86_64"
       "" " " "/etc/yum.repos.d/redhat.repo" ("repolist: 12,345" +:+ nl)] in
  fst (__call__ get_available_repo_ids
         (quiet_context false (repoinfo_text es) "", Some "7.6") empty_world)
  = Return (VList ["rhel-7-server-rpms"; "rhel-7-server-optional-rpms"]).
Proof.
  intros es.
  apply (get_available_repo_ids_lists_rhsm_repos
           (quiet_context false (repoinfo_text es) "") (Some "7.6") "" "" es
           empty_world () eq_refl eq_refl eq_refl).
Defined.

(** ** Duplicates and the listing *)

Section ListingOutcome.
Context {X : Type}.
Implicit Types (w : World X) (context : IsolatedActions X).

(** Parsing a block asks the world nothing. *)
Lemma parse_repo_params_pure block w w0 :
  _parse_repo_params block w = (fst (_parse_repo_params block w0), w).
Proof.
  unfold _parse_repo_params, _get_repo_param, try_except, bind.
  destruct (search _RE_PARAM_REPO_ID block) as [m1|]; [|reflexivity].
  destruct (search _RE_PARAM_REPO_FILENAME block) as [m2|]; reflexivity.
Qed.

Lemma list_of_parse_pure (blocks : list string) w w0 :
  list_of (_parse_repo_params <$> blocks) w
  = (fst (list_of (_parse_repo_params <$> blocks) w0), w).
Proof.
  induction blocks as [|b blocks IH]; [reflexivity|].
  cbn [fmap list_fmap list_of]. unfold bind.
  rewrite (parse_repo_params_pure b w w0).
  rewrite (parse_repo_params_pure b w0 w0) at 2.
  destruct (fst (_parse_repo_params b w0)) as [repo|e]; [|reflexivity].
  change (list_fmap _ _ ?g blocks) with (g <$> blocks).
  rewrite IH.
  destruct (list_of (_parse_repo_params <$> blocks) w0) as [[l|e] w1];
    reflexivity.
Qed.
End ListingOutcome.

(** X18.  A report of repeated repositories never stops
    [get_available_repo_ids]: once [yum repoinfo] has exited with
    status 0, what the call returns or raises is decided by the
    standard output alone, the same for every standard error; the
    standard error only adds the warning and the inhibiting report,
    made after the command and before the message on the available
    repositories. *)
Theorem duplicates_do_not_stop_listing {X} (context : IsolatedActions X)
    (releasever : option string) (out err : string) (w w0 : World X) (x : X) :
  ctx_call context (repoinfo_cmd releasever) (system w)
    = (Exit0 (MkCallResult out err), x) →
  let run := __call__ get_available_repo_ids (context, releasever) w in
  let parsed := fst (list_of (_get_repos out) w0) in
  fst run = match parsed with
            | Return repos => Return (VList (rhsm_repoids repos))
            | Raise e => Raise e
            end
  ∧ trace (snd run)
    = trace w ++ Call (repoinfo_cmd releasever)
        :: duplicate_events (findall1 _RE_DUPLICATE err)
        ++ match parsed with
           | Return repos => [available_message (rhsm_repoids repos)]
           | Raise _ => []
           end.
Proof.
  intros Hcall run parsed. subst run parsed.
  rewrite (get_available_repo_ids_run _ _ _ _ _ Hcall). cbn [stdout stderr].
  unfold _get_repos. rewrite (list_of_parse_pure _ _ w0).
  destruct (fst (list_of _ w0)) as [repos|e]; unfold record;
    cbn [fst snd trace]; (split; [reflexivity|]).
  - by rewrite <- !app_assoc.
  - by rewrite app_nil_r, <- !app_assoc.
Qed.

Lemma duplicates_do_not_stop_listing_witness :
  let run :=
    __call__ get_available_repo_ids
      (quiet_context false (scenario_stdout usual_fields)
         (duplicate_line "rhel-7-server-rpms"), None) empty_world in
  fst run = Return (VList ["rhel-7-server-rpms"])
  ∧ trace (snd run)
    = Call ["yum"; "repoinfo"]
        :: duplicate_events ["rhel-7-server-rpms"]
        ++ [available_message ["rhel-7-server-rpms"]].
Proof.
  intros run.
  destruct (duplicates_do_not_stop_listing
              (quiet_context false (scenario_stdout usual_fields)
                 (duplicate_line "rhel-7-server-rpms"))
              None (scenario_stdout usual_fields)
              (duplicate_line "rhel-7-server-rpms") empty_world empty_world ()
              eq_refl) as [Hret Htrace].
  split; [exact Hret|exact Htrace].
Defined.

(** ** Retrying without a pause *)

Section RetryNoPause.
Context {X A : Type}.
Variables (max_attempts : Z) (sleep : option nat).
Variables (f : function X A) (args : A).
Hypothesis Hsleep : sleep = None ∨ sleep = Some 0.
Hypothesis Hf :
  ∀ w, ∃ evs, trace (snd (__call__ f args w)) = trace w ++ evs
              ∧ pauses evs = [].

Lemma wrapper_loop_no_pause a w :
  ∃ evs, trace (snd (wrapper_loop max_attempts sleep f args a w))
         = trace w ++ evs
         ∧ pauses evs = [].
Proof.
  remember (Z.to_nat (max_attempts - a)) as n eqn:Hn.
  revert a w Hn. induction (lt_wf n) as [n _ IH]. intros a w Hn.
  rewrite wrapper_loop_step. unfold try_except.
  destruct (Hf w) as (evs0 & Ht0 & Hp0).
  destruct (__call__ f args w) as [[v|e] w1]; cbn [fst snd] in *.
  { by exists evs0. }
  destruct e as [m d|s err|s|l]; try (by exists evs0).
  destruct (decide _) as [Hle|Hgt].
  - unfold bind, give_up_warning, logger, emit, raise. cbn [fst snd trace].
    eexists. split; [by rewrite Ht0, <- app_assoc|].
    unfold pauses in *. by rewrite filter_app, Hp0.
  - set (w2 := snd (retry_notice max_attempts sleep f (a + 1) w1)).
    assert (retry_notice max_attempts sleep f (a + 1) w1 = (Return (), w2)
            ∧ ∃ ev, trace w2 = trace w1 ++ [ev] ∧ is_sleep ev = false)
      as [Hnotice (ev & Ht2 & Hev)].
    { subst w2. unfold retry_notice.
      destruct Hsleep as [->| ->]; unfold logger, emit; cbn [snd trace];
        (split; [reflexivity|]); by eexists. }
    unfold bind at 1. rewrite Hnotice.
    destruct (IH (Z.to_nat (max_attempts - (a + 1))) ltac:(lia) (a + 1)%Z w2
                eq_refl) as (evs & Ht & Hp).
    exists (evs0 ++ [ev] ++ evs). split.
    { by rewrite Ht, Ht2, Ht0, <- !app_assoc. }
    unfold pauses in *. rewrite !filter_app, Hp0, Hp.
    rewrite filter_cons, decide_False by (by rewrite Hev). done.
Qed.
End RetryNoPause.

(** X19.  The wrapper made by [_rhsm_retry] pauses only for a [sleep]
    that is true: with [sleep] left out, or equal to 0, it retries at
    once, so that a call of it makes no pause whatever the number of
    attempts, provided the operation itself makes none. *)
Theorem rhsm_retry_without_sleep {X A} (max_attempts : Z) (sleep : option nat)
    (f : function X A) (args : A) (w : World X) :
  sleep = None ∨ sleep = Some 0 →
  (∀ w, ∃ evs, trace (snd (__call__ f args w)) = trace w ++ evs
               ∧ pauses evs = []) →
  ∃ evs, trace (snd (__call__ (_rhsm_retry max_attempts sleep f) args w))
         = trace w ++ evs
         ∧ pauses evs = [].
Proof.
  intros Hsleep Hf. cbn [__call__ _rhsm_retry]. unfold wrapper.
  by apply wrapper_loop_no_pause.
Qed.

Lemma rhsm_retry_without_sleep_witness :
  let run := __call__ (_rhsm_retry 3 (Some 0) unset_release_def)
               (failing_context false) empty_world in
  pauses (trace (snd run)) = []
  ∧ commands (trace (snd run))
    = replicate 3 (Call ["subscription-manager"; "release"; "--unset"]).
Proof.
  intros run. split; [|reflexivity].
  destruct (rhsm_retry_without_sleep 3 (Some 0) unset_release_def
              (failing_context false) empty_world) as (evs & Ht & Hp).
  - by right.
  - intros w.
    exists [Call ["subscription-manager"; "release"; "--unset"]].
    split; reflexivity.
  - subst run. rewrite Ht. exact Hp.
Defined.

(** ** Where the certificate is copied *)

Lemma has_slash_app a b : has_slash (a +:+ b) = has_slash a || has_slash b.
Proof.
  induction a as [|c a IH]; [reflexivity|].
  rewrite append_cons. cbn [has_slash]. by rewrite IH, orb_assoc.
Qed.

(** [os.path.basename] of a path is what follows its last slash. *)
Lemma basename_file dir name :
  has_slash name = false → basename (dir +:+ "/" +:+ name) = name.
Proof.
  intros Hname. induction dir as [|c dir IH].
  - change ("" +:+ "/" +:+ name) with (String "/" name).
    cbn [basename]. by rewrite Hname.
  - rewrite append_cons. cbn [basename].
    rewrite has_slash_app. change ("/" +:+ name) with (String "/" name).
    cbn [has_slash Ascii.eqb Bool.eqb]. by rewrite orb_true_r.
Qed.

(** [os.path.join] of a directory and a file name. *)
Lemma path_join_file dir name :
  dir ≠ "" → ends_with_slash dir = false → has_slash name = false →
  path_join dir name = dir +:+ "/" +:+ name.
Proof.
  intros Hdir Hend Hname. unfold path_join. rewrite Hend.
  destruct name as [|c name]; [by destruct dir|].
  cbn [has_slash] in Hname. apply orb_false_elim in Hname as [Hc _].
  destruct c as [[] [] [] [] [] [] [] []]; by destruct dir.
Qed.

Section CopyTargets.
Context {X : Type}.
Variable os_path_isdir : string → X → bool.
Implicit Types (context : IsolatedActions X) (w : World X).

Lemma removal_attempts_no_copy context certs x :
  filter (λ ev, is_copy ev = true) (fst (removal_attempts context certs x))
  = [].
Proof.
  pose proof (removal_attempts_events context certs x) as H.
  induction H as [|ev evs Hev _ IH]; [done|].
  rewrite filter_cons, decide_False; [exact IH|].
  destruct ev; try done; by destruct Hev.
Qed.
End CopyTargets.

(** X20.  Outside skip mode, when both certificate directories exist
    and the copies succeed, [switch_certificate] copies the
    certificate twice and under its own file name: to
    [/etc/pki/product/<name>] and then to
    [/etc/pki/product-default/<name>], [<name>] being what follows
    the last slash of the path of the certificate; it makes no other
    copy, whatever the snapshot holds. *)
Theorem switch_certificate_copies_under_file_name {X}
    (os_path_isdir : string → X → bool) (env : gmap string string)
    (context : IsolatedActions X) (rhsm_info : RHSMInfo) (dir name : string)
    (w : World X) :
  skip_rhsm env = false →
  has_slash name = false →
  (∀ x, os_path_isdir (full_path context "/etc/pki/product") x = true) →
  (∀ x, os_path_isdir (full_path context "/etc/pki/product-default") x
        = true) →
  (∀ src dst x, fst (ctx_copy_to context src dst x) = None) →
  let cert_path := dir +:+ "/" +:+ name in
  let run := __call__ (switch_certificate os_path_isdir env)
               (context, rhsm_info, cert_path) w in
  filter (λ ev, is_copy ev = true) (trace (snd run))
  = filter (λ ev, is_copy ev = true) (trace w)
    ++ [CopyTo cert_path ("/etc/pki/product/" +:+ name);
        CopyTo cert_path ("/etc/pki/product-default/" +:+ name)].
Proof.
  intros Hskip Hname Hd1 Hd2 Hcopy cert_path run. subst run.
  unfold switch_certificate, with_rhsm. rewrite Hskip.
  cbn [__call__ switch_certificate_def]. unfold bind at 1. unfold bind at 1.
  rewrite removal_loop.
  pose proof (removal_attempts_no_copy context
                (existing_product_certificates rhsm_info) (system w)) as Hnc.
  set (removing := removal_attempts context
                     (existing_product_certificates rhsm_info) (system w))
    in *.
  destruct (copy_loop os_path_isdir context cert_path
              (MkWorld (environ w) (snd removing) (trace w ++ fst removing)))
    as [Htrace _].
  cbn [system trace] in Htrace.
  destruct (for_each _ _ (MkWorld _ _ _)) as [[[]|e] w']; unfold ret;
    cbn [snd] in *; rewrite Htrace.
  all: rewrite !filter_app, Hnc, app_nil_r; f_equal.
  all: unfold copies_made; rewrite Hd1.
  all: pose proof (Hcopy cert_path
         (path_join "/etc/pki/product" (basename cert_path)) (snd removing))
         as Hc1.
  all: destruct (ctx_copy_to context cert_path _ (snd removing)) as [o x1];
    cbn [fst] in Hc1; subst o; rewrite Hd2.
  all: unfold cert_path; rewrite basename_file by done.
  all: rewrite !path_join_file by done.
  all: reflexivity.
Qed.

Lemma switch_certificate_copies_under_file_name_witness :
  let run := __call__ (switch_certificate (λ _ _, true) switch_off)
               (quiet_context false "" "",
                snapshot ["/etc/pki/product/69.pem"],
                "/usr/share/leapp/upgrade/prod-certs/8.1/479.pem")
               empty_world in
  filter (λ ev, is_copy ev = true) (trace (snd run))
  = [CopyTo "/usr/share/leapp/upgrade/prod-certs/8.1/479.pem"
       "/etc/pki/product/479.pem";
     CopyTo "/usr/share/leapp/upgrade/prod-certs/8.1/479.pem"
       "/etc/pki/product-default/479.pem"].
Proof.
  intros run.
  apply (switch_certificate_copies_under_file_name (λ _ _, true) switch_off
           (quiet_context false "" "") (snapshot ["/etc/pki/product/69.pem"])
           "/usr/share/leapp/upgrade/prod-certs/8.1" "479.pem" empty_world
           eq_refl eq_refl); reflexivity.
Defined.

(** ** A listing that is not gated *)



